(** * Chess leaderboard dashboard ([app.py]): data pipeline and its properties

    The script is a linear pandas pipeline:
    raw table -> numeric coercion / win-rate rescale (lines 43-48)
              -> statistic inference and zero fill (lines 58-76)
              -> rename, sort, pin (lines 79-109)
              -> sidebar metrics (lines 115-119) and row highlighting
                 (lines 124-131).

    Modelling conventions.
    - A float64 cell is an [option Q]: [None] is NaN, [Some q] an exact
      rational.  Binary rounding error, infinities and overflow of float64 are
      outside the rational model: its products, quotients and sums are exact,
      where the script's are rounded to binary64.  Where that rounding decides
      a result (the sums of lines 116-117, which depend on the row order) the
      computation is repeated on binary64 numbers in [Binary64].
    - A DataFrame is the list of its rows, in index order; a column is obtained
      with [col], and the vectorised pandas operations ([isna], [&], [*],
      [round], [astype], [.loc[mask, c] = values], [fillna]) are list
      operations on columns, written in the order the script calls them.
    - An exception raised by pandas is the result [None] of the stage. *)

From Stdlib Require Import QArith Qround ZArith List String Ascii Bool Lia Lqa.
From Stdlib Require Import Permutation Sorted.
From Stdlib Require Floats Uint63.
Import ListNotations.

Open Scope Q_scope.

(** ** A small error monad for the stages that may raise *)

Definition bind {A B : Type} (m : option A) (k : A -> option B) : option B :=
  match m with
  | Some a => k a
  | None => None
  end.

Notation "x <- m ;; k" := (bind m (fun x => k))
  (at level 61, m at next level, right associativity).

(** ** pandas: Series of float64 cells *)

Module Pandas.

Definition Series := list (option Q).
Definition Mask := list bool.

Definition cell_isna (c : option Q) : bool :=
  match c with
  | None => true
  | Some _ => false
  end.

Definition cell_notna (c : option Q) : bool := negb (cell_isna c).

Definition isna (s : Series) : Mask := map cell_isna s.

Definition notna (s : Series) : Mask := map cell_notna s.

(** [a & b] on boolean Series of one index. *)
Fixpoint mask_and (a b : Mask) : Mask :=
  match a, b with
  | x :: a', y :: b' => (x && y)%bool :: mask_and a' b'
  | _, _ => []
  end.

Infix "&&&" := mask_and (at level 40, left associativity).

Definition Qgt_bool (x y : Q) : bool := negb (Qle_bool x y).

(** [x > c] and [x >= c] on one cell: a comparison with NaN is False. *)
Definition cell_gt (c : Q) (x : option Q) : bool :=
  match x with
  | Some q => Qgt_bool q c
  | None => false
  end.

Definition cell_ge (c : Q) (x : option Q) : bool :=
  match x with
  | Some q => Qle_bool c q
  | None => false
  end.

Definition gt_scalar (s : Series) (c : Q) : Mask := map (cell_gt c) s.

Definition ge_scalar (s : Series) (c : Q) : Mask := map (cell_ge c) s.

(** Element-wise arithmetic; NaN is absorbing. *)
Definition lift2 (f : Q -> Q -> option Q) (x y : option Q) : option Q :=
  match x, y with
  | Some p, Some q => f p q
  | _, _ => None
  end.

Fixpoint zip_with (f : option Q -> option Q -> option Q) (a b : Series)
  : Series :=
  match a, b with
  | x :: a', y :: b' => f x y :: zip_with f a' b'
  | _, _ => []
  end.

(** The product, difference and sum are the exact ones.  The script's are
    rounded to binary64, which can put a product just beside a half that the
    exact product hits (45 * 0.7 is 31.499999999999996 in binary64). *)
Definition cell_mul : option Q -> option Q -> option Q :=
  lift2 (fun p q => Some (p * q)).
Definition cell_sub : option Q -> option Q -> option Q :=
  lift2 (fun p q => Some (p - q)).
Definition cell_add : option Q -> option Q -> option Q :=
  lift2 (fun p q => Some (p + q)).

(** A zero divisor gives inf or NaN in float64; neither is a rational, so
    the cell is [None] here.  The script never reads such a cell: its mask
    asks for [games > 0].  The quotient is the exact one; the script stores
    the binary64 number closest to it. *)
Definition cell_div : option Q -> option Q -> option Q :=
  lift2 (fun p q => if Qeq_bool q 0 then None else Some (p / q)).

Definition cell_div_scalar (c : Q) (x : option Q) : option Q :=
  match x with
  | Some p => Some (p / c)
  | None => None
  end.

Definition mul (a b : Series) : Series := zip_with cell_mul a b.
Definition sub (a b : Series) : Series := zip_with cell_sub a b.
Definition add (a b : Series) : Series := zip_with cell_add a b.
Definition div (a b : Series) : Series := zip_with cell_div a b.
Definition div_scalar (a : Series) (c : Q) : Series :=
  map (cell_div_scalar c) a.

(** [Series.round()] is numpy's rint: to the nearest integer, a tie going to
    the even neighbour. *)
Definition round_half_even (q : Q) : Z :=
  let f := Qfloor q in
  let d := q - inject_Z f in
  if Qgt_bool (1 # 2) d then f
  else if Qgt_bool d (1 # 2) then (f + 1)%Z
  else if Z.even f then f else (f + 1)%Z.

Definition cell_round (x : option Q) : option Q :=
  match x with
  | Some q => Some (inject_Z (round_half_even q))
  | None => None
  end.

Definition round (s : Series) : Series := map cell_round s.

Definition is_integer (q : Q) : bool := Qeq_bool (inject_Z (Qfloor q)) q.

(** A cell survives the cast to the nullable integer dtype when it is NaN
    (it becomes <NA>) or holds an integer. *)
Definition int64_castable (c : option Q) : bool :=
  match c with
  | None => true
  | Some q => is_integer q
  end.

Definition cell_to_Int64 (c : option Q) : option Q :=
  match c with
  | Some q => Some (inject_Z (Qfloor q))
  | None => None
  end.

(** [Series.astype("Int64")].  The cast is applied to the whole Series and
    raises TypeError ("cannot safely cast non-equivalent float64 to int64")
    as soon as one cell holds a number that is not an integer.  The range of
    Int64 is not modelled: an integer beyond it also raises in pandas, and is
    cast here. *)
Definition astype_Int64 (s : Series) : option Series :=
  if forallb int64_castable s
  then Some (map cell_to_Int64 s)
  else None.

(** [Series.astype(float)] of a float64 Series. *)
Definition astype_float (s : Series) : Series := s.

(** [s.fillna(0)] on one cell. *)
Definition fillna0 (c : option Q) : option Q :=
  match c with
  | None => Some 0
  | Some q => Some q
  end.

(** [int(x)] of a Python float: truncation toward zero. *)
Definition py_int (q : Q) : Z :=
  if Qle_bool 0 q then Qfloor q else Qceiling q.

(** [Series.sum()], as the exact sum of the cells.  The script adds binary64
    numbers in row order; [Binary64.sum] is that sum. *)
Definition sum (l : list Q) : Q := fold_right Qplus 0 l.

End Pandas.

Import Pandas.

(** ** The table *)

(** A cell as [pd.read_csv] (or the demo literal) delivers it: a number, a text
    that is not a number, or nothing. *)
Inductive Cell : Type :=
| CNum (q : Q)
| CText (s : string)
| CNA.

(** The raw table once lines 37-41 have lower-cased the column names and added
    the absent ones (filled with [pd.NA]): nine columns in every row. *)
Record RawRow : Type := mkRawRow {
  raw_player : option string;
  raw_final_standing : Cell;
  raw_win_rate : Cell;
  raw_wins : Cell;
  raw_losses : Cell;
  raw_games : Cell;
  raw_mu_rating : Cell;
  raw_model : option string;
  raw_prompt : option string
}.

(** A row of the working DataFrame after numeric coercion. *)
Record Row : Type := mkRow {
  player : option string;
  final_standing : option Q;
  win_rate : option Q;
  wins : option Q;
  losses : option Q;
  games : option Q;
  mu_rating : option Q;
  model : option string;
  prompt : option string
}.

Definition DataFrame := list Row.

(** [df[c]] for a numeric column. *)
Definition col (c : Row -> option Q) (df : DataFrame) : Series := map c df.

Definition set_final_standing (v : option Q) (r : Row) : Row :=
  mkRow (player r) v (win_rate r) (wins r) (losses r) (games r)
        (mu_rating r) (model r) (prompt r).
Definition set_win_rate (v : option Q) (r : Row) : Row :=
  mkRow (player r) (final_standing r) v (wins r) (losses r) (games r)
        (mu_rating r) (model r) (prompt r).
Definition set_wins (v : option Q) (r : Row) : Row :=
  mkRow (player r) (final_standing r) (win_rate r) v (losses r) (games r)
        (mu_rating r) (model r) (prompt r).
Definition set_losses (v : option Q) (r : Row) : Row :=
  mkRow (player r) (final_standing r) (win_rate r) (wins r) v (games r)
        (mu_rating r) (model r) (prompt r).
Definition set_games (v : option Q) (r : Row) : Row :=
  mkRow (player r) (final_standing r) (win_rate r) (wins r) (losses r) v
        (mu_rating r) (model r) (prompt r).
Definition set_mu_rating (v : option Q) (r : Row) : Row :=
  mkRow (player r) (final_standing r) (win_rate r) (wins r) (losses r) (games r)
        v (model r) (prompt r).

(** [df.loc[mask, c] = values]: the rows selected by [mask] take the cell of
    [values] with the same index label; the other rows are untouched. *)
Fixpoint loc_set (set : option Q -> Row -> Row)
         (mask : Mask) (values : Series) (df : DataFrame) : DataFrame :=
  match df, mask, values with
  | r :: df', m :: mask', v :: values' =>
      (if m then set v r else r) :: loc_set set mask' values' df'
  | _, _, _ => df
  end.

(** [df[c] = df[c].fillna(0)]. *)
Definition fillna_col (get : Row -> option Q) (set : option Q -> Row -> Row)
           (df : DataFrame) : DataFrame :=
  map (fun r => set (fillna0 (get r)) r) df.

(** ** Schema Normalizer (lines 43-48) *)

Module Normalizer.

(** [pd.to_numeric(..., errors="coerce")] on one cell. *)
Definition to_numeric (c : Cell) : option Q :=
  match c with
  | CNum q => Some q
  | CText _ => None
  | CNA => None
  end.

(** Lines 44-45, the six numeric columns. *)
Definition coerce_row (r : RawRow) : Row :=
  mkRow (raw_player r)
        (to_numeric (raw_final_standing r))
        (to_numeric (raw_win_rate r))
        (to_numeric (raw_wins r))
        (to_numeric (raw_losses r))
        (to_numeric (raw_games r))
        (to_numeric (raw_mu_rating r))
        (raw_model r) (raw_prompt r).

(** Line 48:
    [df.loc[df["win_rate"] > 1, "win_rate"] = df["win_rate"] / 100.0]. *)
Definition rescale_win_rate (df : DataFrame) : DataFrame :=
  loc_set set_win_rate
          (gt_scalar (col win_rate df) 1)
          (div_scalar (col win_rate df) 100)
          df.

Definition normalize (raw : list RawRow) : DataFrame :=
  rescale_win_rate (map coerce_row raw).

End Normalizer.

(** ** Column names (lines 37-41) *)

(** The header of the table: a DataFrame as the list of its columns, each a
    label with its content, in column order.  Labels are byte strings and
    the two string methods are those of Python on ASCII text (a header with
    non-ASCII letters or spaces is outside this model). *)
Module Columns.

(** [str.isspace] on the code points below 128. *)
Definition is_space (a : ascii) : bool :=
  let n := nat_of_ascii a in
  ((9 <=? n) && (n <=? 13) || (28 <=? n) && (n <=? 32))%nat%bool.

Fixpoint lstrip (s : string) : string :=
  match s with
  | EmptyString => EmptyString
  | String a rest => if is_space a then lstrip rest else s
  end.

Fixpoint rstrip (s : string) : string :=
  match s with
  | EmptyString => EmptyString
  | String a rest =>
      match rstrip rest with
      | EmptyString => if is_space a then EmptyString else String a EmptyString
      | kept => String a kept
      end
  end.

(** The text is empty or starts with a character that [strip] keeps. *)
Definition no_leading_space (s : string) : Prop :=
  match s with
  | EmptyString => True
  | String a _ => is_space a = false
  end.

(** [c.strip()]. *)
Definition strip (s : string) : string := rstrip (lstrip s).

Definition lower_char (a : ascii) : ascii :=
  let n := nat_of_ascii a in
  if ((65 <=? n) && (n <=? 90))%nat%bool then ascii_of_nat (n + 32) else a.

(** [c.lower()]. *)
Fixpoint lower (s : string) : string :=
  match s with
  | EmptyString => EmptyString
  | String a rest => String (lower_char a) (lower rest)
  end.

(** Line 38. *)
Definition required_cols : list string :=
  ["player"; "final_standing"; "win_rate"; "wins"; "losses"; "games";
   "mu_rating"; "model"; "prompt"]%string.

Section Frame.

(** The content of a column, and the column that [df[col] = pd.NA] makes. *)
Variable Column : Type.
Variable na_column : Column.

Definition Frame := list (string * Column).

Definition labels (df : Frame) : list string := map fst df.

(** Line 37: [df.columns = [c.strip().lower() for c in df.columns]]. *)
Definition clean_labels (df : Frame) : Frame :=
  map (fun c => (lower (strip (fst c)), snd c)) df.

(** [col in df.columns]. *)
Definition has_column (col : string) (df : Frame) : bool :=
  existsb (String.eqb col) (labels df).

(** Lines 40-41: a new label is appended as the last column. *)
Definition ensure_column (df : Frame) (col : string) : Frame :=
  if has_column col df then df else df ++ [(col, na_column)].

(** Lines 39-41. *)
Definition ensure_required (df : Frame) : Frame :=
  fold_left ensure_column required_cols df.

Definition normalize_columns (df : Frame) : Frame :=
  ensure_required (clean_labels df).

(** [df[col]] when the label is unique: the content of the column. *)
Definition column_of (col : string) (df : Frame) : option Column :=
  match filter (fun c => String.eqb col (fst c)) df with
  | [c] => Some (snd c)
  | _ => None
  end.

End Frame.

Arguments labels {Column} df.
Arguments clean_labels {Column} df.
Arguments has_column {Column} col df.
Arguments ensure_column {Column} na_column df col.
Arguments ensure_required {Column} na_column df.
Arguments normalize_columns {Column} na_column df.
Arguments column_of {Column} col df.

End Columns.

(** ** Statistic Inferencer (lines 58-76) *)

Module Inferencer.

(** Lines 51-56 add the columns wins, losses and games when they are absent;
    lines 38-41 have added them already, so nothing happens there. *)

(** Lines 58-60. *)
Definition estimate_wins (df : DataFrame) : option DataFrame :=
  let mask_wins :=
    isna (col wins df) &&& notna (col games df) &&& notna (col win_rate df) in
  est <- astype_Int64 (round (mul (col games df) (col win_rate df))) ;;
  Some (loc_set set_wins mask_wins est df).

(** Lines 62-64. *)
Definition estimate_losses (df : DataFrame) : option DataFrame :=
  let mask_losses :=
    isna (col losses df) &&& notna (col games df) &&& notna (col wins df) in
  est <- astype_Int64 (sub (col games df) (col wins df)) ;;
  Some (loc_set set_losses mask_losses est df).

(** Lines 66-68. *)
Definition estimate_games (df : DataFrame) : option DataFrame :=
  let mask_games :=
    isna (col games df) &&& notna (col wins df) &&& notna (col losses df) in
  est <- astype_Int64 (add (col wins df) (col losses df)) ;;
  Some (loc_set set_games mask_games est df).

(** Lines 70-72. *)
Definition estimate_win_rate (df : DataFrame) : DataFrame :=
  let mask_wr :=
    isna (col win_rate df) &&& notna (col wins df) &&& notna (col games df)
    &&& gt_scalar (col games df) 0 in
  loc_set set_win_rate mask_wr
          (astype_float (div (col wins df) (col games df))) df.

(** Lines 74-76, in the order of the loop. *)
Definition fill_zero (df : DataFrame) : DataFrame :=
  fillna_col final_standing set_final_standing
    (fillna_col mu_rating set_mu_rating
      (fillna_col win_rate set_win_rate
        (fillna_col games set_games
          (fillna_col losses set_losses
            (fillna_col wins set_wins df))))).

Definition infer (df : DataFrame) : option DataFrame :=
  df1 <- estimate_wins df ;;
  df2 <- estimate_losses df1 ;;
  df3 <- estimate_games df2 ;;
  Some (fill_zero (estimate_win_rate df3)).

End Inferencer.

(** Normalizer then Inferencer. *)
Definition clean (raw : list RawRow) : option DataFrame :=
  Inferencer.infer (Normalizer.normalize raw).

(** ** View Builder (lines 79-109) *)

(** A row of the display table.  The six numeric columns were zero-filled by
    the Inferencer, so they hold numbers. *)
Record ViewRow : Type := mkViewRow {
  Player : option string;
  Final_Standing : Q;
  Win_Rate : Q;
  Wins : Q;
  Losses : Q;
  Games : Q;
  Mu_Rating : Q;
  Model : option string;
  Prompt : option string
}.

Definition View := list ViewRow.

Module ViewBuilder.

(** The content of a numeric cell that [fill_zero] has made non-null. *)
Definition value (c : option Q) : Q :=
  match c with
  | Some q => q
  | None => 0
  end.

(** Lines 79-89. *)
Definition rename_row (r : Row) : ViewRow :=
  mkViewRow (player r) (value (final_standing r)) (value (win_rate r))
            (value (wins r)) (value (losses r)) (value (games r))
            (value (mu_rating r)) (model r) (prompt r).

Definition rename (df : DataFrame) : View := map rename_row df.

(** The five choices of the sort selectbox (lines 95-98). *)
Inductive SortOption : Type :=
| ByFinalStanding
| ByWinRate
| ByMuRating
| ByWins
| ByLosses.

Definition label (o : SortOption) : string :=
  match o with
  | ByFinalStanding => "Final Standing"
  | ByWinRate => "Win Rate"
  | ByMuRating => "Mu Rating"
  | ByWins => "Wins"
  | ByLosses => "Losses"
  end.

(** [df[sort_option]]. *)
Definition column (o : SortOption) : ViewRow -> Q :=
  match o with
  | ByFinalStanding => Final_Standing
  | ByWinRate => Win_Rate
  | ByMuRating => Mu_Rating
  | ByWins => Wins
  | ByLosses => Losses
  end.

(** Line 101: [sort_option in ["Final Standing", "Losses"]]. *)
Definition ascending (o : SortOption) : bool :=
  existsb (String.eqb (label o)) ["Final Standing"; "Losses"]%string.

(** [DataFrame.take]: the rows at the positions of the indexer. *)
Definition take {A : Type} (indexer : list nat) (l : list A) : list A :=
  flat_map (fun i => match nth_error l i with
                     | Some a => [a]
                     | None => []
                     end) indexer.

Section SortValues.

(** [ndarray.argsort(kind="quicksort")], the kind that [sort_values] uses
    when the caller names none (line 102 names none). *)
Variable argsort : list Q -> list nat.

(** pandas' [nargsort] on a column without NaN: a descending sort reverses
    the column, sorts it ascending and reverses the result. *)
Definition nargsort (items : list Q) (asc : bool) : list nat :=
  if asc then argsort items
  else
    let non_nan_idx := rev (seq 0 (List.length items)) in
    rev (take (argsort (rev items)) non_nan_idx).

(** Line 102: [df.sort_values(by=..., ascending=...).reset_index(drop=True)]. *)
Definition sort_values (by_ : SortOption) (asc : bool) (df : View) : View :=
  take (nargsort (map (column by_) df) asc) df.

End SortValues.

Definition player_is (name : string) (r : ViewRow) : bool :=
  match Player r with
  | Some p => String.eqb p name
  | None => false
  end.

(** Lines 105-109.  The selectbox offers "None" followed by the players. *)
Definition pin (pin_choice : string) (df : View) : View :=
  if negb (String.eqb pin_choice "None") then
    let pinned := filter (player_is pin_choice) df in
    let others := filter (fun r => negb (player_is pin_choice r)) df in
    pinned ++ others
  else df.

Definition build (argsort : list Q -> list nat)
           (sort_option : SortOption) (pin_choice : string)
           (df : DataFrame) : View :=
  pin pin_choice
      (sort_values argsort sort_option (ascending sort_option) (rename df)).

End ViewBuilder.

(** ** What an argsort promises, and a stable one *)

(** [stable_argsort] returns the positions of the keys in ascending key order
    and keeps equal keys in their original order, as [kind="stable"] would. *)
Module Argsort.

Fixpoint insert_index (before : nat -> nat -> bool) (i : nat)
         (sorted : list nat) : list nat :=
  match sorted with
  | [] => [i]
  | j :: rest =>
      if before i j then i :: j :: rest
      else j :: insert_index before i rest
  end.

Definition key_at (keys : list Q) (i : nat) : Q := nth i keys 0.

Definition argsort_by (cmp : Q -> Q -> bool) (keys : list Q) : list nat :=
  fold_right (insert_index (fun i j => cmp (key_at keys i) (key_at keys j)))
             [] (seq 0 (List.length keys)).

Definition stable_argsort : list Q -> list nat := argsort_by Qle_bool.

(** What numpy promises of [argsort] whatever the kind: the result lists every
    position once, in ascending order of the keys. *)
Definition sorts (argsort : list Q -> list nat) : Prop :=
  forall keys,
    Permutation (argsort keys) (seq 0 (List.length keys)) /\
    StronglySorted (fun i j => key_at keys i <= key_at keys j) (argsort keys).

(** What only the kinds "stable" and "mergesort" promise: positions with equal
    keys come out in increasing order. *)
Definition stable (argsort : list Q -> list nat) : Prop :=
  forall keys k,
    filter (fun i => Qeq_bool (key_at keys i) k) (argsort keys)
    = filter (fun i => Qeq_bool (key_at keys i) k) (seq 0 (List.length keys)).

End Argsort.

(** ** numpy's quicksort on an index array *)

(** [ndarray.argsort(kind="quicksort")] on float64 keys is numpy's
    [aquicksort_] (npysort/quicksort.cpp, the scalar code path): an introsort
    on the index array [tosort], quicksort with a median of three down to
    partitions of at most [SMALL_QUICKSORT] + 1 entries, which are sorted by
    insertion.  Pointers into [tosort] are positions here, and every loop
    comes with a bound on its iterations. *)
Module Numpy.

(** [Tag::less] on keys that are not NaN. *)
Definition less (a b : Q) : bool := negb (Qle_bool b a).

Definition get (tosort : list nat) (p : nat) : nat := nth p tosort 0%nat.

Fixpoint set (tosort : list nat) (p x : nat) : list nat :=
  match tosort, p with
  | [], _ => []
  | _ :: rest, O => x :: rest
  | y :: rest, S p' => y :: set rest p' x
  end.

(** [INTP_SWAP( *p, *q )]. *)
Definition swap (tosort : list nat) (p q : nat) : list nat :=
  set (set tosort p (get tosort q)) q (get tosort p).

(** [v[i]]. *)
Definition key (v : list Q) (i : nat) : Q := nth i v 0.

Definition SMALL_QUICKSORT : nat := 16.

(** [if (less(v[*p], v[*q])) INTP_SWAP( *p, *q )]. *)
Definition swap_if_less (v : list Q) (tosort : list nat) (p q : nat)
  : list nat :=
  if less (key v (get tosort p)) (key v (get tosort q))
  then swap tosort p q
  else tosort.

(** [do { ++pi; } while (less(v[*pi], vp))], entered after the first [++pi]. *)
Fixpoint scan_up (fuel : nat) (v : list Q) (tosort : list nat) (vp : Q)
         (pi : nat) : nat :=
  match fuel with
  | O => pi
  | S fuel' =>
      if less (key v (get tosort pi)) vp
      then scan_up fuel' v tosort vp (pi + 1)
      else pi
  end.

(** [do { --pj; } while (less(vp, v[*pj]))], entered after the first [--pj]. *)
Fixpoint scan_down (fuel : nat) (v : list Q) (tosort : list nat) (vp : Q)
         (pj : nat) : nat :=
  match fuel with
  | O => pj
  | S fuel' =>
      if less vp (key v (get tosort pj))
      then scan_down fuel' v tosort vp (pj - 1)
      else pj
  end.

(** The [for (;;)] loop of the partition: both scans, then a swap unless the
    two pointers have met. *)
Fixpoint partition_loop (fuel : nat) (v : list Q) (tosort : list nat) (vp : Q)
         (pi pj : nat) : list nat * nat :=
  match fuel with
  | O => (tosort, pi)
  | S fuel' =>
      let pi := scan_up (List.length tosort) v tosort vp (pi + 1) in
      let pj := scan_down (List.length tosort) v tosort vp (pj - 1) in
      if (pj <=? pi)%nat then (tosort, pi)
      else partition_loop fuel' v (swap tosort pi pj) vp pi pj
  end.

(** One partition of [pl .. pr]: the median of the first, middle and last
    entry becomes the pivot [vp] and is parked at [pr - 1]; the result is the
    index array and the final place [pi] of the pivot. *)
Definition partition (v : list Q) (tosort : list nat) (pl pr : nat)
  : list nat * nat :=
  let pm := (pl + Nat.div2 (pr - pl))%nat in
  let tosort := swap_if_less v tosort pm pl in
  let tosort := swap_if_less v tosort pr pm in
  let tosort := swap_if_less v tosort pm pl in
  let vp := key v (get tosort pm) in
  let tosort := swap tosort pm (pr - 1) in
  let '(tosort, pi) :=
    partition_loop (List.length tosort) v tosort vp pl (pr - 1) in
  (swap tosort pi (pr - 1), pi).

(** [while (pj > pl && less(vp, v[*pk])) { *pj-- = *pk--; }] with
    [pk = pj - 1]. *)
Fixpoint shift (fuel : nat) (v : list Q) (tosort : list nat) (vp : Q)
         (pl pj : nat) : list nat * nat :=
  match fuel with
  | O => (tosort, pj)
  | S fuel' =>
      if ((pl <? pj)%nat && less vp (key v (get tosort (pj - 1))))%bool
      then shift fuel' v (set tosort pj (get tosort (pj - 1))) vp pl (pj - 1)
      else (tosort, pj)
  end.

(** The body of the insertion loop for the entry at [pi]. *)
Definition insert (v : list Q) (pl : nat) (tosort : list nat) (pi : nat)
  : list nat :=
  let vi := get tosort pi in
  let '(tosort, pj) := shift pi v tosort (key v vi) pl pi in
  set tosort pj vi.

(** [for (pi = pl + 1; pi <= pr; ++pi)]. *)
Definition insertion_sort (v : list Q) (tosort : list nat) (pl pr : nat)
  : list nat :=
  fold_left (insert v pl) (seq (pl + 1) (pr - pl)) tosort.

(** The [while (1)] loop with its stack of pending partitions.  [outer] says
    that control is at the head of that loop, where a partition whose depth
    count is used up goes to heapsort; heapsort is not modelled, and the
    result is [None] there. *)
Fixpoint aquicksort_loop (fuel : nat) (v : list Q) (tosort : list nat)
         (pl pr : nat) (cdepth : Z) (stack : list (nat * nat * Z))
         (outer : bool) : option (list nat) :=
  match fuel with
  | O => None
  | S fuel' =>
      if (outer && (cdepth <? 0)%Z)%bool then None
      else if (SMALL_QUICKSORT <? pr - pl)%nat then
        let '(tosort, pi) := partition v tosort pl pr in
        let cdepth := (cdepth - 1)%Z in
        if (pi - pl <? pr - pi)%nat
        then aquicksort_loop fuel' v tosort pl (pi - 1) cdepth
                             ((pi + 1, pr, cdepth) :: stack)%nat false
        else aquicksort_loop fuel' v tosort (pi + 1) pr cdepth
                             ((pl, pi - 1, cdepth) :: stack)%nat false
      else
        let tosort := insertion_sort v tosort pl pr in
        match stack with
        | [] => Some tosort
        | (pl, pr, cdepth) :: stack =>
            aquicksort_loop fuel' v tosort pl pr cdepth stack true
        end
  end.

(** [aquicksort_(v, tosort, num)] on the index array 0, 1, ..., num - 1, with
    depth limit [2 * npy_get_msb(num)]. *)
Definition aquicksort (v : list Q) : option (list nat) :=
  let num := List.length v in
  aquicksort_loop (2 * num + 1) v (seq 0 num) 0 (num - 1)
                  (2 * Z.log2 (Z.of_nat num)) [] true.

(** The indexer that [argsort] returns; empty where the sort leaves the
    modelled path. *)
Definition argsort (v : list Q) : list nat :=
  match aquicksort v with
  | Some tosort => tosort
  | None => []
  end.

(** The insertion loop read on lists.  [rsorted] is the sorted part of
    [tosort] from its last entry to its first; the entries whose key is
    greater than that of [vi] move one place up and [vi] goes below them. *)
Fixpoint insert_from_end (v : list Q) (vi : nat) (rsorted : list nat)
  : list nat :=
  match rsorted with
  | [] => [vi]
  | y :: rest =>
      if less (key v vi) (key v y)
      then y :: insert_from_end v vi rest
      else vi :: y :: rest
  end.

(** The sorted part, last entry first, once the positions 0 .. k - 1 are in. *)
Definition sorted_from_end (v : list Q) (k : nat) : list nat :=
  fold_left (fun rsorted vi => insert_from_end v vi rsorted) (seq 0 k) [].

End Numpy.

(** ** Summary Calculator (lines 115-119) *)

Module Summary.

Record Metrics : Type := mkMetrics {
  players : nat;
  total_games : Z;
  average_win_rate : Q;
  players_over_80 : nat
}.

(** Truth value of a Python number in [if x]. *)
Definition truthy (q : Q) : bool := negb (Qeq_bool q 0).

(** Line 117. *)
Definition avg_wr (df : View) : Q :=
  if truthy (sum (map Games df))
  then sum (map Wins df) / sum (map Games df)
  else 0.

(** [(df["Win Rate"] >= 0.8).sum()]. *)
Definition count_over_80 (df : View) : nat :=
  List.length (filter (fun r => Qle_bool (8 # 10) (Win_Rate r)) df).

Definition summary (df : View) : Metrics :=
  mkMetrics (List.length df)
            (py_int (sum (map Games df)))
            (avg_wr df)
            (count_over_80 df).

End Summary.

(** ** The sums of lines 116-117 on binary64 numbers *)

(** Lines 116-117 add the cells of a column as numpy does for a short column:
    in row order, each partial sum rounded to binary64.  The cells are the
    binary64 numbers closest to the rationals of the view. *)
Module Binary64.

Definition of_Z (z : Z) : PrimFloat.float :=
  match z with
  | Z0 => PrimFloat.of_uint63 (Uint63.of_Z 0)
  | Zpos _ => PrimFloat.of_uint63 (Uint63.of_Z z)
  | Zneg p => PrimFloat.opp (PrimFloat.of_uint63 (Uint63.of_Z (Zpos p)))
  end.

(** The binary64 number closest to [q], for a numerator and a denominator
    below 2^53: both convert exactly and the division rounds once. *)
Definition of_Q (q : Q) : PrimFloat.float :=
  PrimFloat.div (of_Z (Qnum q)) (of_Z (Zpos (Qden q))).

(** [Series.sum()] of a float64 column. *)
Definition sum (l : list PrimFloat.float) : PrimFloat.float :=
  fold_left PrimFloat.add l (of_Z 0).

(** [int(x)] of a Python float: truncation toward zero; an infinity or a NaN
    raises. *)
Definition py_int (x : PrimFloat.float) : option Z :=
  match FloatOps.Prim2SF x with
  | SpecFloat.S754_zero _ => Some 0%Z
  | SpecFloat.S754_finite s m e =>
      let a := if (0 <=? e)%Z then (Zpos m * 2 ^ e)%Z
               else (Zpos m / 2 ^ (- e))%Z in
      Some (if s then (- a)%Z else a)
  | _ => None
  end.

(** Truth value of a Python float in [if x]. *)
Definition truthy (x : PrimFloat.float) : bool :=
  negb (PrimFloat.eqb x (of_Z 0)).

Definition column (c : ViewRow -> Q) (df : View) : list PrimFloat.float :=
  map (fun r => of_Q (c r)) df.

(** Line 116. *)
Definition total_games (df : View) : option Z :=
  py_int (sum (column Games df)).

(** Line 117. *)
Definition avg_wr (df : View) : PrimFloat.float :=
  if truthy (sum (column Games df))
  then PrimFloat.div (sum (column Wins df)) (sum (column Games df))
  else of_Z 0.

End Binary64.

(** ** Row highlighting (lines 124-131) *)

Module Highlight.

Definition pinned_style : string := "background-color:#e8f0ff".
Definition top_three_style : string := "background-color:#fff8dc".
Definition high_performer_style : string := "background-color:#eaffea".
Definition no_style : string := EmptyString.

(** [len(row)]: the nine columns of [cols_to_show] (line 137). *)
Definition row_len : nat := 9.

Definition highlight_row (pin_choice : string) (row : ViewRow) : list string :=
  if (negb (String.eqb pin_choice "None")
      && ViewBuilder.player_is pin_choice row)%bool
  then repeat pinned_style row_len
  else if (py_int (Final_Standing row) <=? 3)%Z
  then repeat top_three_style row_len
  else if Qle_bool (8 # 10) (Win_Rate row)
  then repeat high_performer_style row_len
  else repeat no_style row_len.

(** The first test of [highlight_row] fails: nothing is pinned, or another
    player is. *)
Definition not_pinned (pin_choice : string) (row : ViewRow) : Prop :=
  pin_choice = "None"%string \/ ViewBuilder.player_is pin_choice row = false.

End Highlight.

(** ** The whole run *)

Definition dashboard (argsort : list Q -> list nat) (raw : list RawRow)
           (sort_option : ViewBuilder.SortOption) (pin_choice : string)
  : option (View * Summary.Metrics) :=
  df <- clean raw ;;
  let view := ViewBuilder.build argsort sort_option pin_choice df in
  Some (view, Summary.summary view).

(** Two runs end alike: both raise, or both show the same rows in some order,
    the same player count and the same count of rows with Win Rate >= 0.80. *)
Definition same_rows_and_counts (a b : option (View * Summary.Metrics))
  : Prop :=
  match a, b with
  | Some (v1, m1), Some (v2, m2) =>
      Permutation v1 v2 /\
      Summary.players m1 = Summary.players m2 /\
      Summary.players_over_80 m1 = Summary.players_over_80 m2
  | None, None => True
  | _, _ => False
  end.

(** ** The fill rules as the specification words them *)

(** The four statistics of a row, and the five rules of the Inferencer's
    contract, each a function of one row's statistics. *)
Module Spec.

Record Stats : Type := mkStats {
  s_wins : option Q;
  s_losses : option Q;
  s_games : option Q;
  s_win_rate : option Q
}.

(** 1. wins = round(games * win_rate) when wins is missing, games and
    win_rate present. *)
Definition rule1 (s : Stats) : Stats :=
  match s_wins s, s_games s, s_win_rate s with
  | None, Some g, Some w =>
      mkStats (Some (inject_Z (round_half_even (g * w))))
              (s_losses s) (s_games s) (s_win_rate s)
  | _, _, _ => s
  end.

(** 2. losses = games - wins when losses is missing, games and wins present. *)
Definition rule2 (s : Stats) : Stats :=
  match s_losses s, s_games s, s_wins s with
  | None, Some g, Some w =>
      mkStats (s_wins s) (Some (g - w)) (s_games s) (s_win_rate s)
  | _, _, _ => s
  end.

(** 3. games = wins + losses when games is missing, wins and losses present. *)
Definition rule3 (s : Stats) : Stats :=
  match s_games s, s_wins s, s_losses s with
  | None, Some w, Some l =>
      mkStats (s_wins s) (s_losses s) (Some (w + l)) (s_win_rate s)
  | _, _, _ => s
  end.

(** 4. win_rate = wins / games when win_rate is missing, wins and games
    present and games > 0. *)
Definition rule4 (s : Stats) : Stats :=
  match s_win_rate s, s_wins s, s_games s with
  | None, Some w, Some g =>
      if Qgt_bool g 0
      then mkStats (s_wins s) (s_losses s) (s_games s) (Some (w / g))
      else s
  | _, _, _ => s
  end.

Definition or_zero (c : option Q) : option Q :=
  match c with
  | Some q => Some q
  | None => Some 0
  end.

(** 5. any field still missing is set to 0. *)
Definition rule5 (s : Stats) : Stats :=
  mkStats (or_zero (s_wins s)) (or_zero (s_losses s))
          (or_zero (s_games s)) (or_zero (s_win_rate s)).

Definition fill (s : Stats) : Stats :=
  rule5 (rule4 (rule3 (rule2 (rule1 s)))).

(** Cells and statistics that hold the same numbers. *)
Definition cell_equiv (a b : option Q) : Prop :=
  match a, b with
  | Some p, Some q => p == q
  | None, None => True
  | _, _ => False
  end.

Definition equiv (a b : Stats) : Prop :=
  cell_equiv (s_wins a) (s_wins b) /\
  cell_equiv (s_losses a) (s_losses b) /\
  cell_equiv (s_games a) (s_games b) /\
  cell_equiv (s_win_rate a) (s_win_rate b).

End Spec.

Definition stats_of (r : Row) : Spec.Stats :=
  Spec.mkStats (wins r) (losses r) (games r) (win_rate r).

(** ** Row-wise reading of the vectorised stages *)

(** What each stage of the Inferencer does to the row at one index, and the
    condition under which the row passes the three integer casts. *)
Module RowWise.

Definition wins_mask (r : Row) : bool :=
  (cell_isna (wins r) && cell_notna (games r) && cell_notna (win_rate r))%bool.
Definition wins_est (r : Row) : option Q :=
  cell_round (cell_mul (games r) (win_rate r)).
Definition wins_step (r : Row) : Row :=
  if wins_mask r then set_wins (cell_to_Int64 (wins_est r)) r else r.

Definition losses_mask (r : Row) : bool :=
  (cell_isna (losses r) && cell_notna (games r) && cell_notna (wins r))%bool.
Definition losses_est (r : Row) : option Q := cell_sub (games r) (wins r).
Definition losses_step (r : Row) : Row :=
  if losses_mask r then set_losses (cell_to_Int64 (losses_est r)) r else r.

Definition games_mask (r : Row) : bool :=
  (cell_isna (games r) && cell_notna (wins r) && cell_notna (losses r))%bool.
Definition games_est (r : Row) : option Q := cell_add (wins r) (losses r).
Definition games_step (r : Row) : Row :=
  if games_mask r then set_games (cell_to_Int64 (games_est r)) r else r.

Definition win_rate_mask (r : Row) : bool :=
  (cell_isna (win_rate r) && cell_notna (wins r) && cell_notna (games r)
   && cell_gt 0 (games r))%bool.
Definition win_rate_step (r : Row) : Row :=
  if win_rate_mask r then set_win_rate (cell_div (wins r) (games r)) r else r.

Definition fill_zero_row (r : Row) : Row :=
  mkRow (player r) (fillna0 (final_standing r)) (fillna0 (win_rate r))
        (fillna0 (wins r)) (fillna0 (losses r)) (fillna0 (games r))
        (fillna0 (mu_rating r)) (model r) (prompt r).

Definition infer_row (r : Row) : Row :=
  fill_zero_row (win_rate_step (games_step (losses_step (wins_step r)))).

Definition casts_ok (r : Row) : bool :=
  (int64_castable (wins_est r)
   && int64_castable (losses_est (wins_step r))
   && int64_castable (games_est (losses_step (wins_step r))))%bool.

Definition rescale_row (r : Row) : Row :=
  if cell_gt 1 (win_rate r)
  then set_win_rate (cell_div_scalar 100 (win_rate r)) r
  else r.

End RowWise.

(** ** Data-quality conditions on rows *)

Module Quality.

(** A non-negative integer. *)
Definition is_count (q : Q) : bool := (is_integer q && Qle_bool 0 q)%bool.

Definition in_range (lo hi q : Q) : bool :=
  (Qle_bool lo q && Qle_bool q hi)%bool.

(** The condition holds of the cell when the cell holds a number. *)
Definition if_present (p : Q -> bool) (c : option Q) : bool :=
  match c with
  | Some q => p q
  | None => true
  end.

(** The cell holds a number for which the condition holds. *)
Definition present_and (p : Q -> bool) (c : option Q) : bool :=
  match c with
  | Some q => p q
  | None => false
  end.

Definition wins_within_games (r : Row) : bool :=
  match wins r, games r with
  | Some w, Some g => Qle_bool w g
  | _, _ => true
  end.

(** A row whose numbers could be a player's record: counts where counts are
    expected, a win rate between 0 and [top], and no more wins than games. *)
Definition admissible (top : Q) (r : Row) : bool :=
  (if_present is_count (final_standing r)
   && if_present is_count (wins r)
   && if_present is_count (losses r)
   && if_present is_count (games r)
   && if_present (in_range 0 top) (win_rate r)
   && wins_within_games r)%bool.

(** On a coerced row the win rate may be a fraction or a percentage. *)
Definition plausible (r : Row) : bool := admissible 100 r.

(** The invariant of the data model on a cleaned row. *)
Definition well_formed (r : Row) : bool :=
  (present_and (in_range 0 1) (win_rate r)
   && present_and is_count (wins r)
   && present_and is_count (losses r)
   && present_and is_count (games r)
   && present_and is_count (final_standing r))%bool.

(** The wins of the row are missing, or come with games or with losses: the
    Inferencer has a total to set them against. *)
Definition has_total (r : Row) : bool :=
  (cell_isna (wins r) || cell_notna (games r) || cell_notna (losses r))%bool.

(** The cell holds a number between 0 and 1. *)
Definition unit_cell (c : option Q) : Prop :=
  exists q, c = Some q /\ 0 <= q /\ q <= 1.

(** The cell holds a non-negative integer. *)
Definition count_cell (c : option Q) : Prop :=
  exists q z, c = Some q /\ q == inject_Z z /\ (0 <= z)%Z.

(** Every statistic the row holds is an integer. *)
Definition integral (r : Row) : bool :=
  (if_present is_integer (wins r)
   && if_present is_integer (losses r)
   && if_present is_integer (games r))%bool.

End Quality.

(** ** Sample rows *)

Module Samples.

(** A row that holds the four statistics and nothing else. *)
Definition stats_row (w l g wr : option Q) : Row :=
  mkRow None None wr w l g None None None.

Definition raw_cell (c : option Q) : Cell :=
  match c with
  | Some q => CNum q
  | None => CNA
  end.

Definition raw_stats_row (w l g wr : option Q) : RawRow :=
  mkRawRow None CNA (raw_cell wr) (raw_cell w) (raw_cell l) (raw_cell g)
           CNA None None.

Definition view_row (name : string) (standing rate w l g : Q) : ViewRow :=
  mkViewRow (Some name) standing rate w l g 0 None None.

(** An upload with a player column only. *)
Definition player_row (name : string) : RawRow :=
  mkRawRow (Some name) CNA CNA CNA CNA CNA CNA None None.

Definition eighteen_players : list RawRow :=
  map player_row
      ["A"; "B"; "C"; "D"; "E"; "F"; "G"; "H"; "I"; "J"; "K"; "L"; "M"; "N";
       "O"; "P"; "Q"; "R"]%string.

(** An upload with the columns player, final_standing, wins, games and
    mu_rating: three players with a fractional number of games, one with a win
    and no games. *)
Definition scored_row (name : string) (standing : Q) (w g : Cell) (mu : Q)
  : RawRow :=
  mkRawRow (Some name) (CNum standing) CNA w CNA g (CNum mu) None None.

Definition fractional_games : list RawRow :=
  [scored_row "Alpha" 4 CNA (CNum (1 # 10)) 2100;
   scored_row "Bravo" 3 CNA (CNum (2 # 10)) 2050;
   scored_row "Charlie" 2 CNA (CNum (7 # 10)) 1980;
   scored_row "Delta" 1 (CNum 1) CNA 1850].

End Samples.

(** * Properties *)

(** ** Lists and columns *)

Lemma mask_and_map {A : Type} (f g : A -> bool) (l : list A) :
  mask_and (map f l) (map g l) = map (fun x => (f x && g x)%bool) l.
Proof.
  induction l as [| x l IH]; simpl; [reflexivity | now rewrite IH].
Qed.

Lemma zip_with_map {A : Type} (f : option Q -> option Q -> option Q)
      (a b : A -> option Q) (l : list A) :
  zip_with f (map a l) (map b l) = map (fun x => f (a x) (b x)) l.
Proof.
  induction l as [| x l IH]; simpl; [reflexivity | now rewrite IH].
Qed.

Lemma loc_set_map (set : option Q -> Row -> Row)
      (mask : Row -> bool) (values : Row -> option Q) (df : DataFrame) :
  loc_set set (map mask df) (map values df) df
  = map (fun r => if mask r then set (values r) r else r) df.
Proof.
  induction df as [| r df IH]; simpl; [reflexivity | now rewrite IH].
Qed.

Lemma forallb_map {A B : Type} (p : B -> bool) (f : A -> B) (l : list A) :
  forallb p (map f l) = forallb (fun x => p (f x)) l.
Proof.
  induction l as [| x l IH]; simpl; [reflexivity | now rewrite IH].
Qed.

Lemma forallb_andb {A : Type} (p q : A -> bool) (l : list A) :
  (forallb p l && forallb q l)%bool = forallb (fun x => (p x && q x)%bool) l.
Proof.
  induction l as [| x l IH]; simpl; [reflexivity |].
  rewrite <- IH.
  destruct (p x), (q x), (forallb p l), (forallb q l); reflexivity.
Qed.

(** A masked assignment of a cast Series, row by row. *)
Lemma cast_stage_rowwise (set : option Q -> Row -> Row)
      (mask : Row -> bool) (est : Row -> option Q) (df : DataFrame) :
  (s <- astype_Int64 (map est df) ;; Some (loc_set set (map mask df) s df))
  = if forallb (fun r => int64_castable (est r)) df
    then Some (map (fun r => if mask r
                             then set (cell_to_Int64 (est r)) r
                             else r) df)
    else None.
Proof.
  unfold astype_Int64. rewrite forallb_map.
  destruct (forallb _ df); simpl; [| reflexivity].
  now rewrite map_map, loc_set_map.
Qed.

Ltac columns_to_rows :=
  unfold isna, notna, gt_scalar, ge_scalar, round, mul, sub, add, div,
    div_scalar, astype_float, col;
  repeat (rewrite ?map_map, ?zip_with_map, ?mask_and_map).

Module RowWiseFacts.
Import RowWise Inferencer Normalizer.

Lemma estimate_wins_rowwise df :
  estimate_wins df
  = if forallb (fun r => int64_castable (wins_est r)) df
    then Some (map wins_step df) else None.
Proof.
  unfold estimate_wins. columns_to_rows.
  exact (cast_stage_rowwise set_wins wins_mask wins_est df).
Qed.

Lemma estimate_losses_rowwise df :
  estimate_losses df
  = if forallb (fun r => int64_castable (losses_est r)) df
    then Some (map losses_step df) else None.
Proof.
  unfold estimate_losses. columns_to_rows.
  exact (cast_stage_rowwise set_losses losses_mask losses_est df).
Qed.

Lemma estimate_games_rowwise df :
  estimate_games df
  = if forallb (fun r => int64_castable (games_est r)) df
    then Some (map games_step df) else None.
Proof.
  unfold estimate_games. columns_to_rows.
  exact (cast_stage_rowwise set_games games_mask games_est df).
Qed.

Lemma estimate_win_rate_rowwise df :
  estimate_win_rate df = map win_rate_step df.
Proof.
  unfold estimate_win_rate. columns_to_rows.
  exact (loc_set_map set_win_rate win_rate_mask
                     (fun r => cell_div (wins r) (games r)) df).
Qed.

Lemma fill_zero_rowwise df : fill_zero df = map fill_zero_row df.
Proof.
  unfold fill_zero, fillna_col. rewrite !map_map.
  apply map_ext. intros []; reflexivity.
Qed.

(** The Inferencer raises exactly when some row fails a cast, and otherwise
    transforms every row on its own. *)
Lemma infer_rowwise df :
  infer df = if forallb casts_ok df then Some (map infer_row df) else None.
Proof.
  unfold infer, casts_ok.
  rewrite <- !forallb_andb.
  rewrite estimate_wins_rowwise.
  destruct (forallb (fun r => int64_castable (wins_est r)) df);
    simpl; [| reflexivity].
  rewrite estimate_losses_rowwise, forallb_map.
  destruct (forallb (fun r => int64_castable (losses_est (wins_step r))) df);
    simpl; [| reflexivity].
  rewrite estimate_games_rowwise, !forallb_map.
  destruct (forallb _ df); simpl; [| reflexivity].
  rewrite estimate_win_rate_rowwise, fill_zero_rowwise, !map_map.
  reflexivity.
Qed.

Lemma rescale_win_rate_rowwise df :
  rescale_win_rate df = map rescale_row df.
Proof.
  unfold rescale_win_rate. columns_to_rows.
  exact (loc_set_map set_win_rate (fun r => cell_gt 1 (win_rate r))
                     (fun r => cell_div_scalar 100 (win_rate r)) df).
Qed.

Lemma normalize_rowwise raw :
  normalize raw = map (fun r => rescale_row (coerce_row r)) raw.
Proof.
  unfold normalize. now rewrite rescale_win_rate_rowwise, map_map.
Qed.

End RowWiseFacts.

(** ** Rational arithmetic used by the rules *)

Lemma is_integer_floor q : is_integer q = true -> inject_Z (Qfloor q) == q.
Proof. unfold is_integer. apply Qeq_bool_eq. Qed.

Lemma is_integer_inject_Z z : is_integer (inject_Z z) = true.
Proof. unfold is_integer. rewrite Qfloor_Z. apply Qeq_bool_refl. Qed.

Lemma is_integer_iff q : is_integer q = true <-> exists z, q == inject_Z z.
Proof.
  split.
  - intros H. exists (Qfloor q). symmetry. now apply is_integer_floor.
  - intros [z Hz]. unfold is_integer. apply Qeq_eq_bool.
    rewrite Hz at 1. rewrite Qfloor_Z. now symmetry.
Qed.

Lemma Qgt_bool_true x y : Qgt_bool x y = true <-> y < x.
Proof.
  unfold Qgt_bool. rewrite negb_true_iff, <- not_true_iff_false, Qle_bool_iff.
  split; [apply Qnot_le_lt | apply Qlt_not_le].
Qed.

Lemma Qgt_bool_false x y : Qgt_bool x y = false <-> x <= y.
Proof.
  unfold Qgt_bool. now rewrite negb_false_iff, Qle_bool_iff.
Qed.

#[global] Instance Qgt_bool_comp : Proper (Qeq ==> Qeq ==> eq) Qgt_bool.
Proof. intros a b Hab c d Hcd. unfold Qgt_bool. now rewrite Hab, Hcd. Qed.

Lemma guard_positive_nonzero g : Qgt_bool g 0 = true -> Qeq_bool g 0 = false.
Proof.
  rewrite Qgt_bool_true. intros Hpos.
  destruct (Qeq_bool g 0) eqn:E; [| reflexivity].
  apply Qeq_bool_eq in E. rewrite E in Hpos. now apply Qlt_irrefl in Hpos.
Qed.

Lemma positive_not_zero g : Qgt_bool g 0 = true -> g == 0 -> False.
Proof.
  rewrite Qgt_bool_true. intros Hpos Hz. rewrite Hz in Hpos.
  now apply Qlt_irrefl in Hpos.
Qed.

Lemma if_and_true (a b : bool) :
  (if a then b else false) = true <-> a = true /\ b = true.
Proof. destruct a, b; intuition congruence. Qed.

(** ** Proof steps shared by the row-wise case analyses *)

(** Runs the stages on a row whose cells are known to be present or missing,
    arguments first, and leaves the arithmetic and the guards as they are. *)
Ltac eval_row :=
  cbv [RowWise.casts_ok RowWise.infer_row RowWise.wins_step RowWise.losses_step
       RowWise.games_step RowWise.win_rate_step RowWise.wins_mask
       RowWise.losses_mask RowWise.games_mask RowWise.win_rate_mask
       RowWise.wins_est RowWise.losses_est RowWise.games_est
       RowWise.fill_zero_row RowWise.rescale_row
       set_final_standing set_win_rate set_wins set_losses set_games
       set_mu_rating
       player final_standing win_rate wins losses games mu_rating model prompt
       cell_isna cell_notna cell_gt cell_ge cell_mul cell_sub cell_add cell_div
       cell_div_scalar cell_round cell_to_Int64 lift2 int64_castable fillna0
       negb andb
       Spec.fill Spec.rule1 Spec.rule2 Spec.rule3 Spec.rule4 Spec.rule5
       Spec.or_zero Spec.equiv Spec.cell_equiv Spec.s_wins Spec.s_losses
       Spec.s_games Spec.s_win_rate stats_of
       Quality.integral Quality.admissible Quality.plausible
       Quality.well_formed Quality.if_present Quality.present_and
       Quality.wins_within_games].

Ltac split_bools :=
  repeat match goal with
         | H : (_ && _)%bool = true |- _ => apply andb_prop in H; destruct H
         | H : (if _ then _ else false) = true |- _ =>
             apply if_and_true in H; destruct H
         | |- (_ && _)%bool = true => apply andb_true_intro; split
         | |- (if _ then _ else false) = true => apply if_and_true; split
         end.

Ltac split_casts :=
  split_bools;
  repeat match goal with
         | H : is_integer _ = true |- _ => apply is_integer_floor in H
         end.

(** A guard on a cast cell is the guard on the cell before the cast. *)
Ltac align_guards :=
  repeat match goal with
         | H : inject_Z (Qfloor ?x) == ?x
           |- context [Qgt_bool (inject_Z (Qfloor ?x)) ?c] =>
             rewrite (Qgt_bool_comp _ _ H c c (Qeq_refl c))
         | H : inject_Z (Qfloor ?x) == ?x
           |- context [Qeq_bool (inject_Z (Qfloor ?x)) ?c] =>
             rewrite (Qeqb_comp _ _ H c c (Qeq_refl c))
         end.

Ltac case_guards :=
  repeat match goal with
         | |- context [Qgt_bool ?a 0] =>
             let E := fresh "Hgt" in
             destruct (Qgt_bool a 0) eqn:E;
             [rewrite ?(guard_positive_nonzero _ E) |]
         | |- context [Qeq_bool ?a 0] =>
             let E := fresh "Hz" in destruct (Qeq_bool a 0) eqn:E
         end.

(** ** The Inferencer, row by row *)

Section InferRows.
Import RowWise RowWiseFacts Inferencer.

Lemma infer_casts_ok df out :
  infer df = Some out -> forallb casts_ok df = true.
Proof.
  rewrite infer_rowwise.
  destruct (forallb casts_ok df); [reflexivity | discriminate].
Qed.

Lemma infer_output df out :
  infer df = Some out -> out = map infer_row df.
Proof.
  rewrite infer_rowwise. destruct (forallb casts_ok df); congruence.
Qed.

Lemma infer_row_at df out i r :
  infer df = Some out ->
  nth_error df i = Some r ->
  nth_error out i = Some (infer_row r) /\ casts_ok r = true.
Proof.
  intros Hinf Hr. split.
  - rewrite (infer_output _ _ Hinf), nth_error_map, Hr. reflexivity.
  - apply infer_casts_ok in Hinf. rewrite forallb_forall in Hinf.
    apply Hinf. eapply nth_error_In; eauto.
Qed.

Lemma infer_length df out :
  infer df = Some out -> List.length out = List.length df.
Proof. intros H. rewrite (infer_output _ _ H). apply length_map. Qed.

(** On a row that passes the casts the vectorised code computes what the
    five rules of the contract compute. *)
Lemma infer_row_refines_spec r :
  casts_ok r = true ->
  Spec.equiv (stats_of (infer_row r)) (Spec.fill (stats_of r)).
Proof.
  destruct r as [p fs [wr|] [w|] [l|] [g|] mu m pr]; eval_row;
    intros H; split_casts.
  all: rewrite ?Qfloor_Z in *.
  all: align_guards.
  all: case_guards; eval_row; repeat split; try reflexivity; try assumption.
  match goal with
  | H : inject_Z (Qfloor ?x) == ?x |- _ => rewrite H; reflexivity
  end.
Qed.

(** No rule writes into a cell that holds a number. *)
Lemma infer_row_keeps_present r :
  (forall q, wins r = Some q -> wins (infer_row r) = Some q) /\
  (forall q, losses r = Some q -> losses (infer_row r) = Some q) /\
  (forall q, games r = Some q -> games (infer_row r) = Some q) /\
  (forall q, win_rate r = Some q -> win_rate (infer_row r) = Some q).
Proof.
  destruct r as [p fs [wr|] [w|] [l|] [g|] mu m pr]; eval_row;
    case_guards; eval_row;
    repeat split; intros q Hq; first [exact Hq | discriminate Hq].
Qed.

(** After the zero fill the six numeric cells of a row hold numbers. *)
Lemma infer_row_no_nulls r :
  let r' := infer_row r in
  final_standing r' <> None /\ win_rate r' <> None /\ wins r' <> None /\
  losses r' <> None /\ games r' <> None /\ mu_rating r' <> None.
Proof.
  unfold infer_row, fill_zero_row; cbn [final_standing win_rate wins losses
                                        games mu_rating].
  repeat split;
    match goal with |- fillna0 ?c <> None => destruct c; discriminate end.
Qed.

(** A row whose six numeric cells hold numbers is left as it is. *)
Lemma infer_row_fixed r :
  final_standing r <> None -> win_rate r <> None -> wins r <> None ->
  losses r <> None -> games r <> None -> mu_rating r <> None ->
  infer_row r = r.
Proof.
  destruct r as [p [fs|] [wr|] [w|] [l|] [g|] [mu|] m pr];
    cbn [final_standing win_rate wins losses games mu_rating];
    intros; try congruence.
  reflexivity.
Qed.

Lemma infer_row_idempotent r : infer_row (infer_row r) = infer_row r.
Proof.
  destruct (infer_row_no_nulls r) as (H1 & H2 & H3 & H4 & H5 & H6).
  now apply infer_row_fixed.
Qed.

End InferRows.

(** ** Claims about the Inferencer *)

Import Samples.

(** The order of the rules when no cast raises, in exact arithmetic: the
    statistics of every output row are those that rule 1, then rule 2, then
    rule 3, then rule 4, then the zero fill give on the input row.  In
    particular games=20, win_rate=0.5 alone yields wins=10 and losses=10;
    wins=7, losses=3 yields games=10 and win_rate=0.7; a row with all four
    missing yields four zeros. *)
Lemma fill_precedence :
  (forall df out,
      Inferencer.infer df = Some out ->
      forall i r, nth_error df i = Some r ->
      exists r', nth_error out i = Some r' /\
                 Spec.equiv (stats_of r') (Spec.fill (stats_of r)))
  /\ option_map (map stats_of)
       (Inferencer.infer [stats_row None None (Some 20) (Some (1 # 2))])
     = Some [Spec.mkStats (Some 10) (Some 10) (Some 20) (Some (1 # 2))]
  /\ option_map (map stats_of)
       (Inferencer.infer [stats_row (Some 7) (Some 3) None None])
     = Some [Spec.mkStats (Some 7) (Some 3) (Some 10) (Some (7 # 10))]
  /\ option_map (map stats_of)
       (Inferencer.infer [stats_row None None None None])
     = Some [Spec.mkStats (Some 0) (Some 0) (Some 0) (Some 0)].
Proof.
  split; [| repeat split; vm_compute; reflexivity].
  intros df out Hinf i r Hr.
  destruct (infer_row_at df out i r Hinf Hr) as [Hout Hok].
  exists (RowWise.infer_row r). split; [exact Hout |].
  now apply infer_row_refines_spec.
Qed.

(** C1.  The rules are meant to fill every row, and the casts of lines 64
    and 68 stop them: [astype("Int64")] runs over the whole column, also over
    the rows its mask leaves out.  The row games=20, win_rate=0.5 alone is
    filled with wins=10 and losses=10; in a table that also holds a row with
    wins=1 and games=2.5, line 64 computes games - wins = 1.5 for that row and
    raises, so no row is filled. *)
Theorem fractional_row_leaves_nothing_filled :
  option_map (map stats_of)
    (Inferencer.infer [stats_row None None (Some 20) (Some (1 # 2))])
  = Some [Spec.mkStats (Some 10) (Some 10) (Some 20) (Some (1 # 2))]
  /\ Inferencer.infer [stats_row None None (Some 20) (Some (1 # 2));
                       stats_row (Some 1) None (Some (5 # 2)) None]
     = None.
Proof. split; vm_compute; reflexivity. Qed.

(** C8.  The Inferencer never overwrites a field that its input row already
    holds: in every row of the table it produces, each of wins, losses, games
    and win_rate that was present in the input has the input's value, whether
    or not the present values agree with one another. *)
Theorem present_fields_never_overwritten df out i r r' :
  Inferencer.infer df = Some out ->
  nth_error df i = Some r ->
  nth_error out i = Some r' ->
  (forall q, wins r = Some q -> wins r' = Some q) /\
  (forall q, losses r = Some q -> losses r' = Some q) /\
  (forall q, games r = Some q -> games r' = Some q) /\
  (forall q, win_rate r = Some q -> win_rate r' = Some q).
Proof.
  intros Hinf Hr Hr'.
  destruct (infer_row_at df out i r Hinf Hr) as [Hout _].
  rewrite Hout in Hr'. injection Hr' as <-.
  apply infer_row_keeps_present.
Qed.

Lemma present_fields_never_overwritten_witness :
  let r := stats_row (Some 7) (Some 3) (Some 20) (Some (1 # 10)) in
  let r' := mkRow None (Some 0) (Some (1 # 10)) (Some 7) (Some 3) (Some 20)
                  (Some 0) None None in
  (forall q, wins r = Some q -> wins r' = Some q) /\
  (forall q, losses r = Some q -> losses r' = Some q) /\
  (forall q, games r = Some q -> games r' = Some q) /\
  (forall q, win_rate r = Some q -> win_rate r' = Some q).
Proof.
  intros r r'.
  apply (present_fields_never_overwritten [r] [r'] 0%nat r r').
  - vm_compute. reflexivity.
  - reflexivity.
  - reflexivity.
Defined.

(** ** Integer tables: the casts succeed *)

Lemma is_integer_zero : is_integer 0 = true.
Proof. reflexivity. Qed.

Lemma is_integer_plus a b :
  is_integer a = true -> is_integer b = true -> is_integer (a + b) = true.
Proof.
  rewrite !is_integer_iff. intros [x Hx] [y Hy]. exists (x + y)%Z.
  now rewrite Hx, Hy, inject_Z_plus.
Qed.

Lemma is_integer_minus a b :
  is_integer a = true -> is_integer b = true -> is_integer (a - b) = true.
Proof.
  rewrite !is_integer_iff. intros [x Hx] [y Hy]. exists (x - y)%Z.
  rewrite Hx, Hy. unfold Z.sub, Qminus.
  now rewrite inject_Z_plus, inject_Z_opp.
Qed.

Create HintDb integers.
#[global] Hint Resolve is_integer_zero is_integer_inject_Z is_integer_plus
  is_integer_minus : integers.

Lemma integral_casts_ok r :
  Quality.integral r = true -> RowWise.casts_ok r = true.
Proof.
  destruct r as [p fs [wr|] [w|] [l|] [g|] mu m pr];
    eval_row; intros H; split_bools;
    auto with integers.
Qed.

Lemma integral_infer_row r :
  Quality.integral r = true -> Quality.integral (RowWise.infer_row r) = true.
Proof.
  destruct r as [p fs [wr|] [w|] [l|] [g|] mu m pr];
    eval_row; intros H; split_bools;
    case_guards; eval_row; split_bools; auto with integers.
Qed.

(** On a table whose statistics are integers the Inferencer raises nothing. *)
Lemma infer_succeeds_on_integral df :
  forallb Quality.integral df = true ->
  Inferencer.infer df = Some (map RowWise.infer_row df).
Proof.
  intros H. rewrite RowWiseFacts.infer_rowwise.
  replace (forallb RowWise.casts_ok df) with true; [reflexivity |].
  symmetry. rewrite forallb_forall in *.
  intros r Hr. apply integral_casts_ok. now apply H.
Qed.

(** A second run either raises or returns its input. *)
Lemma infer_rerun df out :
  Inferencer.infer df = Some out ->
  Inferencer.infer out
  = if forallb RowWise.casts_ok out then Some out else None.
Proof.
  intros H. rewrite RowWiseFacts.infer_rowwise.
  destruct (forallb RowWise.casts_ok out); [| reflexivity].
  f_equal. rewrite (infer_output _ _ H), map_map.
  apply map_ext. intros r. apply infer_row_idempotent.
Qed.

(** On a table whose statistics are integers the Inferencer is idempotent. *)
Lemma infer_idempotent_on_integral df out :
  forallb Quality.integral df = true ->
  Inferencer.infer df = Some out ->
  Inferencer.infer out = Some out.
Proof.
  intros Hint Hinf. rewrite (infer_rerun _ _ Hinf).
  replace (forallb RowWise.casts_ok out) with true; [reflexivity |].
  symmetry. rewrite (infer_output _ _ Hinf), forallb_map.
  rewrite forallb_forall in *. intros r Hr.
  apply integral_casts_ok, integral_infer_row. now apply Hint.
Qed.

(** C9.  The Inferencer is meant to be idempotent, and line 68 breaks it: the
    cast [astype("Int64")] covers the rows its mask leaves out.  On the
    one-row table with losses = 1.5 and the other statistics missing the first
    run succeeds (wins + losses is NaN) and zero-fills wins and games; the
    second run computes wins + losses = 1.5 for the same row and raises. *)
Theorem rerun_raises_on_fractional_losses :
  Inferencer.infer [stats_row None (Some (3 # 2)) None None]
  = Some [mkRow None (Some 0) (Some 0) (Some 0) (Some (3 # 2)) (Some 0)
                (Some 0) None None]
  /\ Inferencer.infer [mkRow None (Some 0) (Some 0) (Some 0) (Some (3 # 2))
                             (Some 0) (Some 0) None None]
     = None.
Proof. split; vm_compute; reflexivity. Qed.

(** ** Rows without games *)

Lemma infer_row_zero_games r :
  win_rate r = None ->
  forall g, games (RowWise.infer_row r) = Some g -> g == 0 ->
  win_rate (RowWise.infer_row r) = Some 0.
Proof.
  destruct r as [p fs [wr|] [w|] [l|] [g|] mu m pr];
    eval_row; intros Hwr; try discriminate Hwr;
    case_guards; eval_row; intros g' Hg' Hz; try reflexivity;
    injection Hg' as <-; exfalso; eapply positive_not_zero; eassumption.
Qed.

(** C5, as the code has it.  In the table the Inferencer produces, every row
    with games == 0 whose win_rate was missing in the input has win_rate == 0.
    (A win_rate present in the input is kept, whatever games is.) *)
Theorem zero_games_zero_win_rate df out i r r' g :
  Inferencer.infer df = Some out ->
  nth_error df i = Some r ->
  nth_error out i = Some r' ->
  win_rate r = None ->
  games r' = Some g -> g == 0 ->
  win_rate r' = Some 0.
Proof.
  intros Hinf Hr Hr' Hwr Hg Hz.
  destruct (infer_row_at df out i r Hinf Hr) as [Hout _].
  rewrite Hout in Hr'. injection Hr' as <-.
  eapply infer_row_zero_games; eassumption.
Qed.

Lemma zero_games_zero_win_rate_witness :
  win_rate (mkRow None (Some 0) (Some 0) (Some 4) (Some (-4)) (Some 0) (Some 0)
                  None None) = Some 0.
Proof.
  apply (zero_games_zero_win_rate
           [stats_row (Some 4) None (Some 0) None]
           [mkRow None (Some 0) (Some 0) (Some 4) (Some (-4)) (Some 0) (Some 0)
                  None None]
           0%nat (stats_row (Some 4) None (Some 0) None) _ 0).
  - vm_compute. reflexivity.
  - reflexivity.
  - reflexivity.
  - reflexivity.
  - reflexivity.
  - reflexivity.
Defined.

(** A row with games = 0 and win_rate = 0.5 keeps both. *)
Lemma zero_games_keeps_present_win_rate :
  exists out r,
    Inferencer.infer [stats_row None None (Some 0) (Some (1 # 2))] = Some out /\
    nth_error out 0 = Some r /\
    games r = Some 0 /\
    win_rate r = Some (1 # 2) /\
    ~ (1 # 2) == 0.
Proof.
  eexists. eexists. split; [vm_compute; reflexivity |].
  split; [reflexivity |]. split; [reflexivity |]. split; [reflexivity |].
  intros H. discriminate H.
Qed.


(** ** Ranges of the filled statistics *)

Lemma Qle_bool_false x y : Qle_bool x y = false -> y < x.
Proof.
  intros H. apply Qnot_le_lt. intros Hle.
  apply Qle_bool_iff in Hle. congruence.
Qed.

Lemma floor_bounds x (lo hi : Z) :
  inject_Z lo <= x -> x <= inject_Z hi -> (lo <= Qfloor x <= hi)%Z.
Proof.
  intros Hlo Hhi. split.
  - rewrite <- (Qfloor_Z lo). now apply Qfloor_resp_le.
  - rewrite <- (Qfloor_Z hi). now apply Qfloor_resp_le.
Qed.

(** Rounding stays between the integers that bound its argument. *)
Lemma round_half_even_bounds x (lo hi : Z) :
  inject_Z lo <= x -> x <= inject_Z hi ->
  (lo <= round_half_even x <= hi)%Z.
Proof.
  intros Hlo Hhi.
  destruct (floor_bounds x lo hi Hlo Hhi) as [Hf1 Hf2].
  assert (Hup : 1 # 2 <= x - inject_Z (Qfloor x) -> (Qfloor x + 1 <= hi)%Z).
  { intros Hd.
    destruct (Z_lt_le_dec (Qfloor x) hi) as [Hlt | Hge]; [lia |].
    exfalso. rewrite Zle_Qle in Hge. lra. }
  unfold round_half_even.
  destruct (Qgt_bool (1 # 2) (x - inject_Z (Qfloor x))) eqn:E1; [lia |].
  apply Qgt_bool_false in E1. specialize (Hup E1).
  destruct (Qgt_bool (x - inject_Z (Qfloor x)) (1 # 2)); [lia |].
  destruct (Z.even (Qfloor x)); lia.
Qed.

Lemma is_count_iff q :
  Quality.is_count q = true <-> exists z, q == inject_Z z /\ (0 <= z)%Z.
Proof.
  unfold Quality.is_count. rewrite andb_true_iff, is_integer_iff, Qle_bool_iff.
  split.
  - intros [[z Hz] Hpos]. exists z. split; [exact Hz |].
    rewrite Hz in Hpos. now rewrite Zle_Qle.
  - intros [z [Hz Hpos]]. split; [now exists z |].
    rewrite Hz. now rewrite Zle_Qle in Hpos.
Qed.

Lemma is_count_nonneg q : Quality.is_count q = true -> 0 <= q.
Proof.
  unfold Quality.is_count. rewrite andb_true_iff, Qle_bool_iff. tauto.
Qed.

Lemma is_count_inject_Z z : (0 <= z)%Z -> Quality.is_count (inject_Z z) = true.
Proof. intros H. apply is_count_iff. now exists z. Qed.

Lemma is_count_floor x :
  0 <= x -> Quality.is_count (inject_Z (Qfloor x)) = true.
Proof.
  intros H. apply is_count_inject_Z.
  now destruct (floor_bounds x 0 (Qceiling x) H (Qle_ceiling x)).
Qed.

Lemma in_range_iff lo hi q :
  Quality.in_range lo hi q = true <-> lo <= q /\ q <= hi.
Proof.
  unfold Quality.in_range. now rewrite andb_true_iff, !Qle_bool_iff.
Qed.

(** Rule 1 yields a count that does not exceed games. *)
Lemma estimated_wins_range g wr :
  Quality.is_count g = true -> Quality.in_range 0 1 wr = true ->
  (0 <= round_half_even (g * wr))%Z /\
  inject_Z (round_half_even (g * wr)) <= g.
Proof.
  rewrite is_count_iff, in_range_iff. intros [z [Hz Hpos]] [Hlo Hhi].
  rewrite Zle_Qle in Hpos.
  assert (Hg : 0 <= g) by (rewrite Hz; exact Hpos).
  assert (H0 : inject_Z 0 <= g * wr).
  { apply Qmult_le_0_compat; [exact Hg | exact Hlo]. }
  assert (H1 : g * wr <= inject_Z z).
  { rewrite <- Hz. nra. }
  destruct (round_half_even_bounds _ 0 z H0 H1) as [Ha Hb].
  split; [exact Ha |].
  apply Qle_trans with (inject_Z z); [now rewrite <- Zle_Qle |].
  rewrite Hz. apply Qle_refl.
Qed.

Lemma count_of_estimated_wins g wr :
  Quality.is_count g = true -> Quality.in_range 0 1 wr = true ->
  Quality.is_count
    (inject_Z (Qfloor (inject_Z (round_half_even (g * wr))))) = true.
Proof.
  intros Hg Hwr. rewrite Qfloor_Z. apply is_count_inject_Z.
  now destruct (estimated_wins_range g wr Hg Hwr).
Qed.

Lemma count_of_difference w g :
  w <= g -> Quality.is_count (inject_Z (Qfloor (g - w))) = true.
Proof. intros H. apply is_count_floor. lra. Qed.

Lemma count_of_estimated_losses w g :
  Qle_bool w g = true ->
  Quality.is_count (inject_Z (Qfloor (g - w))) = true.
Proof. rewrite Qle_bool_iff. apply count_of_difference. Qed.

Lemma count_of_losses_after_estimated_wins g wr :
  Quality.is_count g = true -> Quality.in_range 0 1 wr = true ->
  Quality.is_count
    (inject_Z
       (Qfloor (g - inject_Z (Qfloor (inject_Z (round_half_even (g * wr)))))))
  = true.
Proof.
  intros Hg Hwr. rewrite Qfloor_Z. apply count_of_difference.
  now destruct (estimated_wins_range g wr Hg Hwr).
Qed.

Lemma count_of_estimated_games w l :
  Quality.is_count w = true -> Quality.is_count l = true ->
  Quality.is_count (inject_Z (Qfloor (w + l))) = true.
Proof.
  intros Hw Hl. apply is_count_floor.
  apply is_count_nonneg in Hw. apply is_count_nonneg in Hl. lra.
Qed.

Lemma rate_in_unit_interval w g :
  0 <= w -> w <= g -> 0 < g -> Quality.in_range 0 1 (w / g) = true.
Proof.
  intros Hw Hwg Hg. apply in_range_iff. split.
  - apply Qle_shift_div_l; [exact Hg | lra].
  - apply Qle_shift_div_r; [exact Hg | lra].
Qed.

Lemma estimated_rate_in_range w g :
  Quality.is_count w = true -> Qle_bool w g = true -> Qgt_bool g 0 = true ->
  Quality.in_range 0 1 (w / g) = true.
Proof.
  intros Hw Hwg Hg. apply rate_in_unit_interval.
  - now apply is_count_nonneg.
  - now apply Qle_bool_iff.
  - now apply Qgt_bool_true.
Qed.

Lemma estimated_rate_of_estimated_games w l :
  Quality.is_count w = true -> Quality.is_count l = true ->
  Qgt_bool (inject_Z (Qfloor (w + l))) 0 = true ->
  Quality.in_range 0 1 (w / inject_Z (Qfloor (w + l))) = true.
Proof.
  intros Hw Hl Hg.
  assert (Hsum : inject_Z (Qfloor (w + l)) == w + l).
  { apply is_integer_floor, is_integer_plus.
    - unfold Quality.is_count in Hw. now apply andb_prop in Hw.
    - unfold Quality.is_count in Hl. now apply andb_prop in Hl. }
  apply Qgt_bool_true in Hg.
  apply is_count_nonneg in Hw. apply is_count_nonneg in Hl.
  apply rate_in_unit_interval; [exact Hw | rewrite Hsum; lra | exact Hg].
Qed.

Lemma zero_is_count : Quality.is_count 0 = true.
Proof. reflexivity. Qed.

Lemma zero_in_unit_interval : Quality.in_range 0 1 0 = true.
Proof. reflexivity. Qed.

Lemma fraction_stays_in_range wr :
  Qgt_bool wr 1 = false -> Quality.in_range 0 100 wr = true ->
  Quality.in_range 0 1 wr = true.
Proof.
  rewrite !in_range_iff, Qgt_bool_false. tauto.
Qed.

Lemma percentage_rescaled wr :
  Quality.in_range 0 100 wr = true -> Quality.in_range 0 1 (wr / 100) = true.
Proof.
  rewrite !in_range_iff. intros [Hlo Hhi]. split.
  - apply Qle_shift_div_l; [reflexivity | lra].
  - apply Qle_shift_div_r; [reflexivity | lra].
Qed.

Create HintDb quality.
#[global] Hint Resolve count_of_estimated_wins count_of_estimated_losses
  count_of_losses_after_estimated_wins count_of_estimated_games
  estimated_rate_in_range estimated_rate_of_estimated_games
  zero_is_count zero_in_unit_interval percentage_rescaled
  fraction_stays_in_range : quality.

(** The rescaling of line 48 turns a plausible row into one whose win rate is
    a fraction. *)
Lemma rescale_row_admissible r :
  Quality.plausible r = true ->
  Quality.admissible 1 (RowWise.rescale_row r) = true.
Proof.
  destruct r as [p [fs|] [wr|] [w|] [l|] [g|] mu m pr]; eval_row;
    intros H; split_bools;
    try (destruct (Qgt_bool wr 1) eqn:Hbig; eval_row);
    split_bools; auto with quality.
Qed.

(** On a row whose present numbers are admissible the Inferencer establishes
    the invariant of the data model. *)
Lemma infer_row_well_formed r :
  Quality.admissible 1 r = true ->
  Quality.well_formed (RowWise.infer_row r) = true.
Proof.
  destruct r as [p [fs|] [wr|] [w|] [l|] [g|] mu m pr]; eval_row;
    intros H; split_bools;
    case_guards; eval_row; split_bools; auto with quality.
Qed.

Lemma present_count_cell c :
  Quality.present_and Quality.is_count c = true -> Quality.count_cell c.
Proof.
  destruct c as [q |]; [| discriminate]. cbn. rewrite is_count_iff.
  intros [z [Hz Hpos]]. now exists q, z.
Qed.

Lemma present_unit_cell c :
  Quality.present_and (Quality.in_range 0 1) c = true -> Quality.unit_cell c.
Proof.
  destruct c as [q |]; [| discriminate]. cbn. rewrite in_range_iff.
  intros [Hlo Hhi]. now exists q.
Qed.

Lemma admissible_integral top r :
  Quality.admissible top r = true -> Quality.integral r = true.
Proof.
  destruct r as [p fs wr [w|] [l|] [g|] mu m pr];
    unfold Quality.admissible, Quality.integral, Quality.is_count;
    cbn [Quality.if_present wins losses games final_standing win_rate];
    intros H; split_bools; auto.
Qed.

(** A table of plausible rows passes every cast. *)
Lemma clean_succeeds_on_plausible raw :
  forallb (fun r => Quality.plausible (Normalizer.coerce_row r)) raw = true ->
  exists out, clean raw = Some out.
Proof.
  intros H. unfold clean. rewrite RowWiseFacts.normalize_rowwise.
  eexists. apply infer_succeeds_on_integral.
  rewrite forallb_map. rewrite forallb_forall in *. intros r Hr.
  apply admissible_integral with (top := 1), rescale_row_admissible.
  now apply H.
Qed.

(** C2, as the code has it.  The pipeline keeps the numbers it is given, so
    the invariant holds of the rows whose input is plausible: in the table
    produced by Normalizer then Inferencer, a row whose present final_standing,
    wins, losses and games are non-negative integers, whose present win_rate
    lies in [0,100], and whose wins do not exceed its games when both are
    present, has win_rate in [0,1] and non-negative integers in wins, losses,
    games and final_standing. *)
Theorem plausible_rows_are_well_formed raw out i r r' :
  clean raw = Some out ->
  nth_error raw i = Some r ->
  nth_error out i = Some r' ->
  Quality.plausible (Normalizer.coerce_row r) = true ->
  Quality.unit_cell (win_rate r') /\
  Quality.count_cell (wins r') /\
  Quality.count_cell (losses r') /\
  Quality.count_cell (games r') /\
  Quality.count_cell (final_standing r').
Proof.
  unfold clean. rewrite RowWiseFacts.normalize_rowwise.
  intros Hinf Hr Hr' Hok.
  assert (Hmid : nth_error
                   (map (fun x => RowWise.rescale_row (Normalizer.coerce_row x))
                        raw) i
                 = Some (RowWise.rescale_row (Normalizer.coerce_row r))).
  { now rewrite nth_error_map, Hr. }
  destruct (infer_row_at _ _ _ _ Hinf Hmid) as [Hout _].
  rewrite Hout in Hr'. injection Hr' as <-.
  pose proof (infer_row_well_formed _ (rescale_row_admissible _ Hok)) as Hwf.
  unfold Quality.well_formed in Hwf. split_bools.
  repeat split; auto using present_count_cell, present_unit_cell.
Qed.

Lemma plausible_rows_are_well_formed_witness :
  let r' := mkRow None (Some 0) (Some (92 / 100)) (Some 23) (Some 2) (Some 25)
                  (Some 0) None None in
  Quality.unit_cell (win_rate r') /\
  Quality.count_cell (wins r') /\
  Quality.count_cell (losses r') /\
  Quality.count_cell (games r') /\
  Quality.count_cell (final_standing r').
Proof.
  intros r'.
  apply (plausible_rows_are_well_formed
           [raw_stats_row None None (Some 25) (Some 92)] [r'] 0%nat
           (raw_stats_row None None (Some 25) (Some 92)) r').
  - vm_compute. reflexivity.
  - reflexivity.
  - reflexivity.
  - vm_compute. reflexivity.
Defined.

(** A win rate of 250 is divided by 100 once and stays above 1. *)
Lemma win_rate_above_one_survives :
  exists out r q,
    clean [raw_stats_row None None None (Some 250)] = Some out /\
    nth_error out 0 = Some r /\
    win_rate r = Some q /\
    ~ q <= 1.
Proof.
  eexists. eexists. eexists.
  split; [vm_compute; reflexivity |].
  split; [reflexivity |]. split; [reflexivity |].
  intros H. unfold Qle in H. cbn in H. lia.
Qed.

(** ** Row highlighting *)

Section HighlightRules.
Import Highlight ViewBuilder.

Variable pin_choice : string.
Variable row : ViewRow.

(** Rule 1 comes first: the pinned row has the pinned style whatever its
    standing and win rate. *)
Lemma highlight_pinned :
  pin_choice <> "None"%string -> player_is pin_choice row = true ->
  highlight_row pin_choice row = repeat pinned_style row_len.
Proof.
  intros Hpin Hrow. unfold highlight_row.
  apply String.eqb_neq in Hpin. now rewrite Hpin, Hrow.
Qed.

Lemma not_pinned_guard :
  not_pinned pin_choice row ->
  (negb (String.eqb pin_choice "None") && player_is pin_choice row)%bool
  = false.
Proof.
  intros [-> | ->]; [reflexivity | apply andb_false_r].
Qed.

(** Rule 2 as line 127 has it: the integer part of the standing is at most 3. *)
Lemma highlight_top_three :
  not_pinned pin_choice row -> (py_int (Final_Standing row) <= 3)%Z ->
  highlight_row pin_choice row = repeat top_three_style row_len.
Proof.
  intros Hnp Hfs. unfold highlight_row. rewrite (not_pinned_guard Hnp).
  apply Z.leb_le in Hfs. now rewrite Hfs.
Qed.

Lemma highlight_high_performer :
  not_pinned pin_choice row ->
  (3 < py_int (Final_Standing row))%Z -> 8 # 10 <= Win_Rate row ->
  highlight_row pin_choice row = repeat high_performer_style row_len.
Proof.
  intros Hnp Hfs Hwr. unfold highlight_row. rewrite (not_pinned_guard Hnp).
  apply Z.leb_gt in Hfs. apply Qle_bool_iff in Hwr. now rewrite Hfs, Hwr.
Qed.

Lemma highlight_none :
  not_pinned pin_choice row ->
  (3 < py_int (Final_Standing row))%Z -> Win_Rate row < 8 # 10 ->
  highlight_row pin_choice row = repeat no_style row_len.
Proof.
  intros Hnp Hfs Hwr. unfold highlight_row. rewrite (not_pinned_guard Hnp).
  apply Z.leb_gt in Hfs. rewrite Hfs.
  destruct (Qle_bool (8 # 10) (Win_Rate row)) eqn:E; [| reflexivity].
  apply Qle_bool_iff in E. lra.
Qed.

End HighlightRules.

(** C3.  The classifier is first-match-wins and the pinned style comes first,
    but its second rule is only [int(Final Standing) <= 3]: the zero that
    [fillna(0)] (line 76) writes for a missing standing passes it.  A player
    without standing and with a win rate of 0.5, run through the pipeline with
    no pin, is given the top-three style. *)
Theorem no_data_row_gets_top_three_style :
  Highlight.highlight_row "None" (view_row "Zed" 0 (1 # 2) 0 0 0)
  = repeat Highlight.top_three_style 9
  /\ option_map
       (fun out => map (Highlight.highlight_row "None") (fst out))
       (dashboard Argsort.stable_argsort
                  [mkRawRow (Some "Zed"%string) CNA (CNum (1 # 2)) CNA CNA CNA
                            CNA None None]
                  ViewBuilder.ByWinRate "None")
     = Some [repeat Highlight.top_three_style 9].
Proof. split; vm_compute; reflexivity. Qed.

(** ** Pinning *)

Section Pin.
Import ViewBuilder.

Variable pin_choice : string.

Lemma pin_unfold df :
  pin_choice <> "None"%string ->
  pin pin_choice df
  = filter (player_is pin_choice) df
    ++ filter (fun r => negb (player_is pin_choice r)) df.
Proof.
  intros Hpin. unfold pin. apply String.eqb_neq in Hpin. now rewrite Hpin.
Qed.

Lemma filter_all {A : Type} (f : A -> bool) (l : list A) :
  (forall x, In x l -> f x = true) -> filter f l = l.
Proof.
  induction l as [| x l IH]; cbn; intros H; [reflexivity |].
  rewrite (H x (or_introl eq_refl)). f_equal. apply IH. auto.
Qed.

Lemma filter_none {A : Type} (f : A -> bool) (l : list A) :
  (forall x, In x l -> f x = false) -> filter f l = [].
Proof.
  induction l as [| x l IH]; cbn; intros H; [reflexivity |].
  rewrite (H x (or_introl eq_refl)). apply IH. auto.
Qed.

Lemma filter_filter_same {A : Type} (f : A -> bool) (l : list A) :
  filter f (filter f l) = filter f l.
Proof.
  apply filter_all. intros x Hx. now apply filter_In in Hx.
Qed.

Lemma filter_filter_neg {A : Type} (f : A -> bool) (l : list A) :
  filter f (filter (fun x => negb (f x)) l) = [].
Proof.
  apply filter_none. intros x Hx. apply filter_In in Hx.
  destruct Hx as [_ Hx]. now apply negb_true_iff in Hx.
Qed.

Lemma filter_neg_filter {A : Type} (f : A -> bool) (l : list A) :
  filter (fun x => negb (f x)) (filter f l) = [].
Proof.
  apply filter_none. intros x Hx. apply filter_In in Hx.
  destruct Hx as [_ Hx]. now rewrite Hx.
Qed.

Lemma pin_permutation df : Permutation (pin pin_choice df) df.
Proof.
  unfold pin. destruct (negb (String.eqb pin_choice "None")); [| reflexivity].
  induction df as [| r df IH]; cbn; [reflexivity |].
  destruct (player_is pin_choice r); cbn.
  - now constructor.
  - symmetry. apply Permutation_cons_app. now symmetry.
Qed.

End Pin.

(** C7.  With a pin selection other than the no-pin value, the pinned table is
    a block of rows that match the name followed by a block of rows that do
    not; the matching rows are all the matching rows of the table in their
    prior relative order, and the other rows are all the other rows in their
    prior relative order.  If no row matches, the table is returned as it is.
    [pin] is a total function: nothing is raised. *)
Theorem pin_moves_matches_to_front pin_choice df :
  pin_choice <> "None"%string ->
  let is_match := ViewBuilder.player_is pin_choice in
  let pinned := ViewBuilder.pin pin_choice df in
  (exists front back,
      pinned = front ++ back /\
      Forall (fun r => is_match r = true) front /\
      Forall (fun r => is_match r = false) back) /\
  filter is_match pinned = filter is_match df /\
  filter (fun r => negb (is_match r)) pinned
  = filter (fun r => negb (is_match r)) df /\
  ((forall r, In r df -> is_match r = false) -> pinned = df).
Proof.
  intros Hpin is_match pinned. subst pinned.
  rewrite (pin_unfold pin_choice df Hpin). fold is_match.
  repeat split.
  - exists (filter is_match df), (filter (fun r => negb (is_match r)) df).
    split; [reflexivity |]. split; apply Forall_forall; intros r Hr;
      apply filter_In in Hr; destruct Hr as [_ Hr];
      [exact Hr | now apply negb_true_iff in Hr].
  - now rewrite filter_app, filter_filter_same, filter_filter_neg, app_nil_r.
  - now rewrite filter_app, filter_neg_filter, filter_filter_same.
  - intros Hnone. rewrite (filter_none _ _ Hnone). cbn.
    apply filter_all. intros r Hr. now rewrite (Hnone r Hr).
Qed.

Lemma pin_moves_matches_to_front_witness :
  let df := [view_row "Alpha" 1 (92 # 100) 23 2 25;
             view_row "Bravo" 3 (78 # 100) 21 6 27;
             view_row "Charlie" 5 (65 # 100) 17 9 26] in
  let is_match := ViewBuilder.player_is "Bravo" in
  let pinned := ViewBuilder.pin "Bravo" df in
  (exists front back,
      pinned = front ++ back /\
      Forall (fun r => is_match r = true) front /\
      Forall (fun r => is_match r = false) back) /\
  filter is_match pinned = filter is_match df /\
  filter (fun r => negb (is_match r)) pinned
  = filter (fun r => negb (is_match r)) df /\
  ((forall r, In r df -> is_match r = false) -> pinned = df).
Proof.
  apply (pin_moves_matches_to_front "Bravo").
  intros H. discriminate H.
Defined.

(** ** Summary metrics *)

#[global] Instance py_int_comp : Proper (Qeq ==> eq) py_int.
Proof.
  intros a b Hab. unfold py_int. rewrite Hab.
  destruct (Qle_bool 0 b); [now apply Qfloor_comp | now apply Qceiling_comp].
Qed.

Lemma py_int_inject_Z z : py_int (inject_Z z) = z.
Proof.
  unfold py_int. destruct (Qle_bool 0 (inject_Z z));
    [apply Qfloor_Z | apply Qceiling_Z].
Qed.

(** [int] returns an integer as it is. *)
Lemma py_int_integer q : is_integer q = true -> inject_Z (py_int q) == q.
Proof.
  intros H. apply is_integer_iff in H. destruct H as [z Hz].
  rewrite Hz at 1. rewrite py_int_inject_Z. now symmetry.
Qed.

(** [int] drops the fractional part, toward zero. *)
Lemma py_int_truncates q :
  (0 <= q -> inject_Z (py_int q) <= q /\ q < inject_Z (py_int q) + 1) /\
  (q < 0 -> q <= inject_Z (py_int q) /\ inject_Z (py_int q) < q + 1).
Proof.
  unfold py_int. split; intros H.
  - apply Qle_bool_iff in H. rewrite H. split; [apply Qfloor_le |].
    pose proof (Qlt_floor q) as Hf. rewrite inject_Z_plus in Hf.
    exact Hf.
  - destruct (Qle_bool 0 q) eqn:E; [apply Qle_bool_iff in E; lra |].
    split; [apply Qle_ceiling |].
    pose proof (Qceiling_lt q) as Hc.
    unfold Z.sub in Hc. rewrite inject_Z_plus, inject_Z_opp in Hc.
    change (inject_Z 1) with 1 in Hc. lra.
Qed.

Lemma truthy_true q : Summary.truthy q = true <-> ~ q == 0.
Proof.
  unfold Summary.truthy. rewrite negb_true_iff. split.
  - intros H. now apply Qeq_bool_neq.
  - intros H. destruct (Qeq_bool q 0) eqn:E; [| reflexivity].
    now apply Qeq_bool_eq in E.
Qed.

Lemma truthy_false q : Summary.truthy q = false <-> q == 0.
Proof.
  unfold Summary.truthy. rewrite negb_false_iff. apply Qeq_bool_iff.
Qed.

(** C6, as the code has it.  From the final view the Summary Calculator
    computes: the row count; [int] of the sum of Games, which is that sum when
    the sum is an integer and otherwise the sum cut toward zero; the average
    win rate sum(Wins) / sum(Games) when sum(Games) is not zero (it may be
    negative) and 0 when it is zero, so no division by zero occurs; and the
    number of rows with Win Rate >= 0.80. *)
Theorem summary_metrics (df : View) :
  let m := Summary.summary df in
  let total := sum (map Games df) in
  Summary.players m = List.length df /\
  (is_integer total = true -> inject_Z (Summary.total_games m) == total) /\
  (0 <= total ->
   inject_Z (Summary.total_games m) <= total /\
   total < inject_Z (Summary.total_games m) + 1) /\
  (total < 0 ->
   total <= inject_Z (Summary.total_games m) /\
   inject_Z (Summary.total_games m) < total + 1) /\
  (~ total == 0 ->
   Summary.average_win_rate m = sum (map Wins df) / total) /\
  (total == 0 -> Summary.average_win_rate m = 0) /\
  Summary.players_over_80 m
  = List.length (filter (fun r => Qle_bool (8 # 10) (Win_Rate r)) df) /\
  (forall r, In r (filter (fun r => Qle_bool (8 # 10) (Win_Rate r)) df)
             <-> In r df /\ 8 # 10 <= Win_Rate r).
Proof.
  intros m total. subst m. cbn [Summary.summary Summary.players
    Summary.total_games Summary.average_win_rate Summary.players_over_80].
  fold total. unfold Summary.avg_wr. fold total.
  split; [reflexivity |].
  split; [apply py_int_integer |].
  split; [apply (py_int_truncates total) |].
  split; [apply (py_int_truncates total) |].
  split; [intros H; apply truthy_true in H; now rewrite H |].
  split; [intros H; apply truthy_false in H; now rewrite H |].
  split; [reflexivity |].
  intros r. rewrite filter_In, Qle_bool_iff. reflexivity.
Qed.

Lemma summary_metrics_witness :
  let df := [view_row "Alpha" 1 (92 # 100) 23 2 25;
             view_row "Bravo" 3 (78 # 100) 21 6 27] in
  Summary.players (Summary.summary df) = 2%nat /\
  Summary.total_games (Summary.summary df) = 52%Z /\
  Summary.average_win_rate (Summary.summary df) == 44 # 52 /\
  Summary.players_over_80 (Summary.summary df) = 1%nat.
Proof.
  intros df.
  destruct (summary_metrics df) as (H1 & H2 & _ & _ & H5 & _ & H7 & _).
  split; [exact H1 |].
  split; [vm_compute; reflexivity |].
  split; [rewrite H5; [vm_compute; reflexivity | intros H; discriminate H] |].
  exact H7.
Defined.

(** A table whose games sum to -1.5: the quotient is taken and [int] cuts the
    sum to -1. *)
Lemma negative_total_is_divided :
  exists view m,
    dashboard Argsort.stable_argsort
              [raw_stats_row None None (Some (-5 # 2)) None;
               raw_stats_row (Some 1) (Some 0) (Some 1) None]
              ViewBuilder.ByFinalStanding "None" = Some (view, m) /\
    ~ 0 < sum (map Games view) /\
    ~ Summary.average_win_rate m == 0 /\
    ~ inject_Z (Summary.total_games m) == sum (map Games view).
Proof.
  eexists. eexists. split; [vm_compute; reflexivity |].
  repeat split; intros H; vm_compute in H; discriminate H.
Qed.

(** ** Taking rows by position *)

Section Take.
Import ViewBuilder.
Context {A : Type}.

Lemma take_cons (i : nat) (p : list nat) (l : list A) :
  take (i :: p) l
  = match nth_error l i with Some a => [a] | None => [] end ++ take p l.
Proof. reflexivity. Qed.

Lemma take_app (p q : list nat) (l : list A) :
  take (p ++ q) l = take p l ++ take q l.
Proof. unfold take. apply flat_map_app. Qed.

Lemma take_rev (p : list nat) (l : list A) :
  take (rev p) l = rev (take p l).
Proof.
  induction p as [| i p IH]; [reflexivity |].
  cbn [rev]. rewrite take_app, IH, (take_cons i p), rev_app_distr.
  f_equal. cbn. destruct (nth_error l i); reflexivity.
Qed.

Lemma take_seq_from (pre l : list A) :
  take (seq (List.length pre) (List.length l)) (pre ++ l) = l.
Proof.
  revert pre. induction l as [| a l IH]; intros pre; [reflexivity |].
  cbn [List.length seq]. rewrite take_cons.
  rewrite nth_error_app2, Nat.sub_diag by lia. cbn [nth_error app].
  f_equal.
  replace (pre ++ a :: l) with ((pre ++ [a]) ++ l) by now rewrite <- app_assoc.
  replace (S (List.length pre)) with (List.length (pre ++ [a]))
    by (rewrite length_app; cbn; lia).
  apply IH.
Qed.

(** Taking every position in order gives the list back. *)
Lemma take_seq (l : list A) : take (seq 0 (List.length l)) l = l.
Proof. exact (take_seq_from [] l). Qed.

Lemma take_permutation (p q : list nat) (l : list A) :
  Permutation p q -> Permutation (take p l) (take q l).
Proof. intros H. unfold take. now apply Permutation_flat_map. Qed.

(** Taking a rearrangement of all positions rearranges the list. *)
Lemma take_all_permutation (p : list nat) (l : list A) :
  Permutation p (seq 0 (List.length l)) -> Permutation (take p l) l.
Proof.
  intros H. rewrite <- (take_seq l) at 2. now apply take_permutation.
Qed.

Lemma in_take (p : list nat) (l : list A) (a : A) :
  In a (take p l) -> exists i, In i p /\ nth_error l i = Some a.
Proof.
  unfold take. rewrite in_flat_map. intros [i [Hi Ha]]. exists i.
  split; [exact Hi |]. destruct (nth_error l i); cbn in Ha; [| tauto].
  destruct Ha as [-> | []]. reflexivity.
Qed.

(** An order on positions that implies the order of the elements found there
    carries over to the taken list. *)
Lemma take_sorted (R : A -> A -> Prop) (p : list nat) (l : list A) :
  StronglySorted
    (fun i j => forall a b,
         nth_error l i = Some a -> nth_error l j = Some b -> R a b) p ->
  StronglySorted R (take p l).
Proof.
  induction 1 as [| i p Hp IH Hi]; [constructor |].
  rewrite take_cons. destruct (nth_error l i) as [a |] eqn:Ea; [| exact IH].
  cbn [app]. constructor; [exact IH |].
  apply Forall_forall. intros b Hb.
  destruct (in_take _ _ _ Hb) as [j [Hj Eb]].
  rewrite Forall_forall in Hi. exact (Hi j Hj a b eq_refl Eb).
Qed.

(** Filtering the taken elements is taking the positions that hold an
    element that passes the filter. *)
Lemma filter_take (f : A -> bool) (p : list nat) (l : list A) :
  filter f (take p l)
  = take (filter (fun i => match nth_error l i with
                           | Some a => f a
                           | None => false
                           end) p) l.
Proof.
  induction p as [| i p IH]; [reflexivity |].
  rewrite take_cons, filter_app, IH. cbn [filter].
  destruct (nth_error l i) as [a |] eqn:Ea; [| reflexivity].
  cbn [filter]. destruct (f a); [| reflexivity].
  now rewrite take_cons, Ea.
Qed.

End Take.

(** ** Sorting *)

Lemma StronglySorted_weaken {A : Type} (R R' : A -> A -> Prop) (l : list A) :
  (forall x y, R x y -> R' x y) -> StronglySorted R l -> StronglySorted R' l.
Proof.
  intros Himp. induction 1 as [| x l Hl IH Hx]; constructor; [exact IH |].
  eapply Forall_impl; [| exact Hx]. intros y. apply Himp.
Qed.

Lemma StronglySorted_app_one {A : Type} (R : A -> A -> Prop)
      (l : list A) (x : A) :
  StronglySorted R l -> Forall (fun y => R y x) l ->
  StronglySorted R (l ++ [x]).
Proof.
  induction 1 as [| y l Hl IH Hy]; intros Hall; cbn.
  - repeat constructor.
  - inversion Hall as [| ? ? Hyx Hrest]; subst.
    constructor; [now apply IH |].
    apply Forall_app. split; [exact Hy | now constructor].
Qed.

(** Reversing a list sorted one way gives a list sorted the other way. *)
Lemma StronglySorted_rev {A : Type} (R : A -> A -> Prop) (l : list A) :
  StronglySorted R l -> StronglySorted (fun x y => R y x) (rev l).
Proof.
  induction 1 as [| x l Hl IH Hx]; cbn; [constructor |].
  apply StronglySorted_app_one; [exact IH |].
  apply Forall_rev. exact Hx.
Qed.

Lemma key_at_map {A : Type} (f : A -> Q) (l : list A) (i : nat) (a : A) :
  nth_error l i = Some a -> Argsort.key_at (map f l) i = f a.
Proof.
  intros H. unfold Argsort.key_at. apply nth_error_nth.
  now rewrite nth_error_map, H.
Qed.

(** Position [j] of the reversed column holds the key of position
    [n - 1 - j], which is what the reversed list of positions holds at [j]. *)
Lemma mirrored_position (keys : list Q) (j a : nat) :
  nth_error (rev (seq 0 (List.length keys))) j = Some a ->
  Argsort.key_at keys a = Argsort.key_at (rev keys) j.
Proof.
  intros H.
  assert (Hj : (j < List.length keys)%nat).
  { rewrite <- (length_seq (List.length keys) 0), <- length_rev.
    apply nth_error_Some. congruence. }
  apply (nth_error_nth _ _ 0%nat) in H.
  rewrite rev_nth in H by (rewrite length_seq; exact Hj).
  rewrite length_seq, seq_nth in H by lia. cbn in H. subst a.
  unfold Argsort.key_at. now rewrite rev_nth by exact Hj.
Qed.

Section SortFacts.
Import ViewBuilder.

Variable argsort : list Q -> list nat.
Hypothesis argsort_sorts : Argsort.sorts argsort.

Lemma nargsort_permutation keys asc :
  Permutation (nargsort argsort keys asc) (seq 0 (List.length keys)).
Proof.
  unfold nargsort. destruct asc; [apply argsort_sorts |].
  destruct (argsort_sorts (rev keys)) as [Hperm _].
  rewrite length_rev in Hperm.
  rewrite <- Permutation_rev.
  transitivity (rev (seq 0 (List.length keys)));
    [| symmetry; apply Permutation_rev].
  apply take_all_permutation. now rewrite length_rev, length_seq.
Qed.

Lemma nargsort_ascending keys :
  StronglySorted (fun i j => Argsort.key_at keys i <= Argsort.key_at keys j)
                 (nargsort argsort keys true).
Proof. apply argsort_sorts. Qed.

Lemma nargsort_descending keys :
  StronglySorted (fun i j => Argsort.key_at keys j <= Argsort.key_at keys i)
                 (nargsort argsort keys false).
Proof.
  unfold nargsort.
  apply (StronglySorted_rev
           (fun i j => Argsort.key_at keys i <= Argsort.key_at keys j)).
  apply take_sorted.
  destruct (argsort_sorts (rev keys)) as [_ Hsorted].
  eapply StronglySorted_weaken; [| exact Hsorted].
  intros j1 j2 Hle a b Ha Hb. cbv beta in Hle.
  now rewrite (mirrored_position _ _ _ Ha), (mirrored_position _ _ _ Hb).
Qed.

(** Sorting rearranges the rows and loses none. *)
Lemma sort_values_permutation o asc df :
  Permutation (sort_values argsort o asc df) df.
Proof.
  unfold sort_values. apply take_all_permutation.
  rewrite <- (length_map (column o) df). apply nargsort_permutation.
Qed.

Lemma sort_values_ascending o df :
  StronglySorted (fun a b => column o a <= column o b)
                 (sort_values argsort o true df).
Proof.
  unfold sort_values. apply take_sorted.
  eapply StronglySorted_weaken; [| apply nargsort_ascending].
  intros i j Hle a b Ha Hb. cbv beta in Hle.
  now rewrite (key_at_map _ _ _ _ Ha), (key_at_map _ _ _ _ Hb) in Hle.
Qed.

Lemma sort_values_descending o df :
  StronglySorted (fun a b => column o b <= column o a)
                 (sort_values argsort o false df).
Proof.
  unfold sort_values. apply take_sorted.
  eapply StronglySorted_weaken; [| apply nargsort_descending].
  intros i j Hle a b Ha Hb. cbv beta in Hle.
  now rewrite (key_at_map _ _ _ _ Ha), (key_at_map _ _ _ _ Hb) in Hle.
Qed.

End SortFacts.

Lemma ascending_iff o :
  ViewBuilder.ascending o = true
  <-> o = ViewBuilder.ByFinalStanding \/ o = ViewBuilder.ByLosses.
Proof.
  destruct o; cbn; split; intros H; auto; try discriminate H;
    destruct H as [H | H]; discriminate H.
Qed.

(** ** The insertion argsort *)

Section InsertionArgsort.
Import Argsort.

Variable cmp : Q -> Q -> bool.
Hypothesis cmp_true : forall x y, cmp x y = true -> x <= y.
Hypothesis cmp_false : forall x y, cmp x y = false -> y <= x.

Variable keys : list Q.

Let before (i j : nat) : bool := cmp (key_at keys i) (key_at keys j).
Let ordered (i j : nat) : Prop := key_at keys i <= key_at keys j.

Lemma insert_index_permutation i l :
  Permutation (insert_index before i l) (i :: l).
Proof.
  induction l as [| j l IH]; cbn; [reflexivity |].
  destruct (before i j); [reflexivity |].
  rewrite IH. apply perm_swap.
Qed.

Lemma insert_index_sorted i l :
  StronglySorted ordered l -> StronglySorted ordered (insert_index before i l).
Proof.
  induction 1 as [| j l Hl IH Hj]; cbn; [repeat constructor |].
  destruct (before i j) eqn:E.
  - constructor; [now constructor |].
    apply cmp_true in E. constructor; [exact E |].
    eapply Forall_impl; [| exact Hj].
    intros y Hy. unfold ordered in *. eapply Qle_trans; eassumption.
  - constructor; [exact IH |].
    eapply Permutation_Forall;
      [symmetry; apply insert_index_permutation |].
    constructor; [| exact Hj]. apply cmp_false in E. exact E.
Qed.

Lemma insertion_permutation l :
  Permutation (fold_right (insert_index before) [] l) l.
Proof.
  induction l as [| i l IH]; cbn; [reflexivity |].
  rewrite insert_index_permutation. now constructor.
Qed.

Lemma insertion_sorted l :
  StronglySorted ordered (fold_right (insert_index before) [] l).
Proof.
  induction l as [| i l IH]; cbn; [constructor |].
  now apply insert_index_sorted.
Qed.

End InsertionArgsort.

Lemma argsort_by_sorts cmp :
  (forall x y, cmp x y = true -> x <= y) ->
  (forall x y, cmp x y = false -> y <= x) ->
  Argsort.sorts (Argsort.argsort_by cmp).
Proof.
  intros Ht Hf keys. unfold Argsort.argsort_by. split.
  - apply insertion_permutation.
  - now apply insertion_sorted.
Qed.

Lemma stable_argsort_sorts : Argsort.sorts Argsort.stable_argsort.
Proof.
  apply argsort_by_sorts; intros x y H.
  - now apply Qle_bool_iff.
  - apply Qlt_le_weak. now apply Qle_bool_false.
Qed.

(** Insertion with [<=] puts a position before the positions with an equal
    key that are already there. *)
Lemma stable_insert_filter keys k i l :
  let tie j := Qeq_bool (Argsort.key_at keys j) k in
  filter tie
    (Argsort.insert_index
       (fun a b => Qle_bool (Argsort.key_at keys a) (Argsort.key_at keys b))
       i l)
  = if tie i then i :: filter tie l else filter tie l.
Proof.
  intros tie. induction l as [| j l IH]; cbn.
  - destruct (tie i); reflexivity.
  - destruct (Qle_bool (Argsort.key_at keys i) (Argsort.key_at keys j)) eqn:E.
    + cbn. destruct (tie i); reflexivity.
    + cbn. rewrite IH. subst tie. cbv beta.
      destruct (Qeq_bool (Argsort.key_at keys i) k) eqn:Ei;
        destruct (Qeq_bool (Argsort.key_at keys j) k) eqn:Ej;
        try reflexivity.
      exfalso. apply Qle_bool_false in E.
      apply Qeq_bool_eq in Ei. apply Qeq_bool_eq in Ej.
      rewrite Ei, Ej in E. now apply Qlt_irrefl in E.
Qed.

Lemma stable_argsort_stable : Argsort.stable Argsort.stable_argsort.
Proof.
  intros keys k. unfold Argsort.stable_argsort, Argsort.argsort_by.
  induction (seq 0 (List.length keys)) as [| i l IH]; [reflexivity |].
  cbn [fold_right]. rewrite stable_insert_filter, IH. cbn [filter].
  reflexivity.
Qed.

(** ** Ties under a stable argsort *)

Lemma filter_andb {A : Type} (f g : A -> bool) (l : list A) :
  filter (fun x => (f x && g x)%bool) l = filter g (filter f l).
Proof.
  induction l as [| x l IH]; cbn; [reflexivity |].
  destruct (f x); cbn; [destruct (g x) |]; now rewrite IH.
Qed.

Lemma map_key_at_seq_from (pre keys : list Q) :
  map (Argsort.key_at (pre ++ keys)) (seq (List.length pre) (List.length keys))
  = keys.
Proof.
  revert pre. induction keys as [| x keys IH]; intros pre; [reflexivity |].
  cbn [List.length seq map]. f_equal.
  - unfold Argsort.key_at. now rewrite app_nth2, Nat.sub_diag by lia.
  - replace (pre ++ x :: keys) with ((pre ++ [x]) ++ keys)
      by now rewrite <- app_assoc.
    replace (S (List.length pre)) with (List.length (pre ++ [x]))
      by (rewrite length_app; cbn; lia).
    apply IH.
Qed.

Lemma map_key_at_seq (keys : list Q) :
  map (Argsort.key_at keys) (seq 0 (List.length keys)) = keys.
Proof. exact (map_key_at_seq_from [] keys). Qed.

(** If the positions whose key equals [k] come in increasing order, the
    elements taken at these positions come in their order in the list. *)
Lemma filter_take_stable {A : Type} (key : A -> Q) (k : Q)
      (idx : list nat) (l : list A) :
  let tie i := Qeq_bool (Argsort.key_at (map key l) i) k in
  filter tie idx = filter tie (seq 0 (List.length l)) ->
  filter (fun a => Qeq_bool (key a) k) (ViewBuilder.take idx l)
  = filter (fun a => Qeq_bool (key a) k) l.
Proof.
  intros tie Htie.
  assert (Hsplit : forall p,
             filter (fun i => match nth_error l i with
                              | Some a => Qeq_bool (key a) k
                              | None => false
                              end) p
             = filter (fun i => i <? List.length l)%nat (filter tie p)).
  { intros p. rewrite <- filter_andb. apply filter_ext. intros i.
    subst tie. cbv beta.
    destruct (nth_error l i) as [a |] eqn:Ea.
    - rewrite (key_at_map key l i a Ea).
      assert (Hi : (i < List.length l)%nat)
        by (apply nth_error_Some; congruence).
      apply Nat.ltb_lt in Hi. rewrite Hi. now rewrite andb_true_r.
    - apply nth_error_None in Ea. apply Nat.ltb_ge in Ea. rewrite Ea.
      now rewrite andb_false_r. }
  rewrite filter_take, Hsplit, Htie, <- Hsplit, <- filter_take.
  now rewrite take_seq.
Qed.

Section StableSort.
Import ViewBuilder.

Variable argsort : list Q -> list nat.
Hypothesis argsort_stable : Argsort.stable argsort.

Lemma nargsort_stable keys asc k :
  let tie i := Qeq_bool (Argsort.key_at keys i) k in
  filter tie (nargsort argsort keys asc)
  = filter tie (seq 0 (List.length keys)).
Proof.
  intros tie. unfold nargsort. destruct asc; [apply argsort_stable |].
  rewrite filter_rev.
  pose proof (filter_take_stable (Argsort.key_at keys) k
                (argsort (rev keys)) (rev (seq 0 (List.length keys)))) as H.
  cbv zeta in H.
  rewrite map_rev, map_key_at_seq, length_rev, length_seq in H.
  pose proof (argsort_stable (rev keys) k) as Hst.
  rewrite length_rev in Hst.
  fold tie in H. rewrite (H Hst).
  now rewrite <- filter_rev, rev_involutive.
Qed.

(** With a stable argsort the rows that tie on the sort key keep their
    pre-sort relative order, in either direction. *)
Lemma sort_values_stable o asc df k :
  filter (fun r => Qeq_bool (column o r) k) (sort_values argsort o asc df)
  = filter (fun r => Qeq_bool (column o r) k) df.
Proof.
  unfold sort_values. apply filter_take_stable. cbv zeta.
  rewrite <- (length_map (column o) df). apply nargsort_stable.
Qed.

End StableSort.

(** C4, as the code has it.  The View Builder sorts all rows by the selected
    key: ascending exactly when the key is Final Standing or Losses, descending
    for every other key, and the sorted table is a rearrangement of the rows.
    Line 102 names no sort kind, so pandas sorts with numpy's quicksort, an
    argsort that returns the positions in key order ([Argsort.sorts]) and
    promises nothing about equal keys; rows that tie on the key keep their
    pre-sort relative order whenever the argsort is stable. *)
Theorem sort_direction_and_order argsort o df :
  Argsort.sorts argsort ->
  let sorted :=
    ViewBuilder.sort_values argsort o (ViewBuilder.ascending o) df in
  (ViewBuilder.ascending o = true
   <-> o = ViewBuilder.ByFinalStanding \/ o = ViewBuilder.ByLosses) /\
  Permutation sorted df /\
  (ViewBuilder.ascending o = true ->
   StronglySorted
     (fun a b => ViewBuilder.column o a <= ViewBuilder.column o b) sorted) /\
  (ViewBuilder.ascending o = false ->
   StronglySorted
     (fun a b => ViewBuilder.column o b <= ViewBuilder.column o a) sorted) /\
  (Argsort.stable argsort ->
   forall k,
     filter (fun r => Qeq_bool (ViewBuilder.column o r) k) sorted
     = filter (fun r => Qeq_bool (ViewBuilder.column o r) k) df).
Proof.
  intros Hsorts sorted. subst sorted.
  split; [apply ascending_iff |].
  split; [now apply sort_values_permutation |].
  split; [intros ->; now apply sort_values_ascending |].
  split; [intros ->; now apply sort_values_descending |].
  intros Hstable k. now apply sort_values_stable.
Qed.

Lemma sort_direction_and_order_witness :
  let df := [view_row "Charlie" 5 (65 # 100) 17 9 26;
             view_row "Alpha" 1 (92 # 100) 23 2 25;
             view_row "Echo" 4 (81 # 100) 19 4 23] in
  let o := ViewBuilder.ByWinRate in
  let sorted :=
    ViewBuilder.sort_values Argsort.stable_argsort o (ViewBuilder.ascending o)
                            df in
  (ViewBuilder.ascending o = true
   <-> o = ViewBuilder.ByFinalStanding \/ o = ViewBuilder.ByLosses) /\
  Permutation sorted df /\
  (ViewBuilder.ascending o = true ->
   StronglySorted
     (fun a b => ViewBuilder.column o a <= ViewBuilder.column o b) sorted) /\
  (ViewBuilder.ascending o = false ->
   StronglySorted
     (fun a b => ViewBuilder.column o b <= ViewBuilder.column o a) sorted) /\
  (Argsort.stable Argsort.stable_argsort ->
   forall k,
     filter (fun r => Qeq_bool (ViewBuilder.column o r) k) sorted
     = filter (fun r => Qeq_bool (ViewBuilder.column o r) k) df).
Proof.
  intros df o.
  exact (sort_direction_and_order Argsort.stable_argsort o df
                                  stable_argsort_sorts).
Defined.

(** numpy's quicksort moves rows that tie.  An upload of eighteen players
    without standings is cleaned to eighteen rows with Final Standing 0, in
    the order A .. R.  Sorted by Final Standing, the one partition step swaps
    the entries at positions 1 .. 7 with those at 15 .. 9 (none is less than
    the pivot, so both scans stop at every entry), and the two insertion sorts
    move nothing: the table shows A, P, O, ..., B, Q, R. *)
Lemma quicksort_moves_tied_rows :
  exists df,
    let by_ := ViewBuilder.ByFinalStanding in
    let tie r := Qeq_bool (ViewBuilder.column by_ r) 0 in
    let sorted :=
      ViewBuilder.sort_values Numpy.argsort by_ (ViewBuilder.ascending by_)
                              (ViewBuilder.rename df) in
    clean eighteen_players = Some df /\
    Numpy.aquicksort (map (ViewBuilder.column by_) (ViewBuilder.rename df))
    = Some [0; 15; 14; 13; 12; 11; 10; 9; 8; 7; 6; 5; 4; 3; 2; 1; 16; 17]%nat /\
    map Player (ViewBuilder.rename df)
    = map Some ["A"; "B"; "C"; "D"; "E"; "F"; "G"; "H"; "I"; "J"; "K"; "L";
                "M"; "N"; "O"; "P"; "Q"; "R"]%string /\
    map Player sorted
    = map Some ["A"; "P"; "O"; "N"; "M"; "L"; "K"; "J"; "I"; "H"; "G"; "F";
                "E"; "D"; "C"; "B"; "Q"; "R"]%string /\
    filter tie sorted <> filter tie (ViewBuilder.rename df).
Proof.
  eexists. cbv zeta.
  split; [vm_compute; reflexivity |].
  split; [vm_compute; reflexivity |].
  split; [vm_compute; reflexivity |].
  split; [vm_compute; reflexivity |].
  intros H. apply (f_equal (map Player)) in H.
  vm_compute in H. discriminate H.
Qed.

(** ** What the metrics see of the order of the rows *)

Lemma filter_permutation {A : Type} (f : A -> bool) (l l' : list A) :
  Permutation l l' -> Permutation (filter f l) (filter f l').
Proof.
  induction 1 as [| x l l' _ IH | x y l | l l' l'' _ IH1 _ IH2]; cbn.
  - constructor.
  - destruct (f x); [now constructor | exact IH].
  - destruct (f x), (f y); try reflexivity. apply perm_swap.
  - now transitivity (filter f l').
Qed.

Lemma build_permutation argsort o p df :
  Argsort.sorts argsort ->
  Permutation (ViewBuilder.build argsort o p df) (ViewBuilder.rename df).
Proof.
  intros Hsorts. unfold ViewBuilder.build.
  rewrite pin_permutation. now apply sort_values_permutation.
Qed.




(** ** Column names *)

Section ColumnNames.
Import Columns.

Lemma is_space_lower_char a : is_space (lower_char a) = is_space a.
Proof. destruct a as [[] [] [] [] [] [] [] []]; reflexivity. Qed.

Lemma lower_char_idempotent a : lower_char (lower_char a) = lower_char a.
Proof. destruct a as [[] [] [] [] [] [] [] []]; reflexivity. Qed.

Lemma lower_idempotent s : lower (lower s) = lower s.
Proof.
  induction s as [| a s IH]; cbn; [reflexivity |].
  now rewrite lower_char_idempotent, IH.
Qed.

Lemma lstrip_lower s : lstrip (lower s) = lower (lstrip s).
Proof.
  induction s as [| a s IH]; cbn [lower lstrip]; [reflexivity |].
  rewrite is_space_lower_char. destruct (is_space a); [exact IH | reflexivity].
Qed.

Lemma rstrip_lower s : rstrip (lower s) = lower (rstrip s).
Proof.
  induction s as [| a s IH]; cbn [lower rstrip]; [reflexivity |].
  rewrite IH, is_space_lower_char.
  destruct (rstrip s); cbn [lower]; [destruct (is_space a) |]; reflexivity.
Qed.

(** Lower-casing and stripping commute: no letter becomes a space. *)
Lemma strip_lower s : strip (lower s) = lower (strip s).
Proof. unfold strip. now rewrite lstrip_lower, rstrip_lower. Qed.

Lemma rstrip_idempotent s : rstrip (rstrip s) = rstrip s.
Proof.
  induction s as [| a s IH]; cbn [rstrip]; [reflexivity |].
  destruct (rstrip s) as [| b kept] eqn:E.
  - destruct (is_space a) eqn:Ea; cbn [rstrip]; [reflexivity |].
    now rewrite Ea.
  - cbn [rstrip]. cbn [rstrip] in IH. now rewrite IH.
Qed.

Lemma lstrip_no_leading_space s : no_leading_space (lstrip s).
Proof.
  induction s as [| a s IH]; cbn; [exact I |].
  destruct (is_space a) eqn:E; [exact IH | exact E].
Qed.

Lemma rstrip_no_leading_space s :
  no_leading_space s -> no_leading_space (rstrip s).
Proof.
  destruct s as [| a s]; cbn; [trivial |]. intros Ha.
  destruct (rstrip s); [rewrite Ha |]; exact Ha.
Qed.

Lemma lstrip_fixed s : no_leading_space s -> lstrip s = s.
Proof. destruct s as [| a s]; cbn; [reflexivity |]. now intros ->. Qed.

Lemma strip_idempotent s : strip (strip s) = strip s.
Proof.
  unfold strip.
  rewrite (lstrip_fixed (rstrip (lstrip s)))
    by apply rstrip_no_leading_space, lstrip_no_leading_space.
  apply rstrip_idempotent.
Qed.

(** Cleaning a clean label changes nothing. *)
Lemma clean_label_idempotent s :
  lower (strip (lower (strip s))) = lower (strip s).
Proof. now rewrite strip_lower, strip_idempotent, lower_idempotent. Qed.

Lemma required_cols_clean :
  Forall (fun c => lower (strip c) = c) required_cols.
Proof. repeat constructor. Qed.

Lemma required_cols_distinct : NoDup required_cols.
Proof.
  unfold required_cols.
  repeat (constructor; [cbn; intuition discriminate |]). constructor.
Qed.

End ColumnNames.

Section Frames.
Import Columns.

Context {Column : Type}.
Variable na_column : Column.

Lemma has_column_app col (df extra : Frame Column) :
  has_column col (df ++ extra)
  = (has_column col df || has_column col extra)%bool.
Proof. unfold has_column, labels. now rewrite map_app, existsb_app. Qed.

Lemma has_column_iff col (df : Frame Column) :
  has_column col df = true <-> In col (labels df).
Proof.
  unfold has_column. rewrite existsb_exists. split.
  - intros [c [Hc Heq]]. apply String.eqb_eq in Heq. now subst.
  - intros H. exists col. split; [exact H | apply String.eqb_refl].
Qed.

(** The loop of lines 39-41 appends, in the order of the list, an empty column
    for every label of the list that the table lacks. *)
Lemma ensure_columns_appends cols (df : Frame Column) :
  NoDup cols ->
  fold_left (ensure_column na_column) cols df
  = df ++ map (fun c => (c, na_column))
              (filter (fun c => negb (has_column c df)) cols).
Proof.
  intros Hcols. revert df.
  induction Hcols as [| c cols Hc Hcols IH]; intros df; cbn [fold_left filter].
  - now rewrite app_nil_r.
  - rewrite IH. unfold ensure_column.
    destruct (has_column c df) eqn:E; cbn [negb map]; [reflexivity |].
    rewrite <- app_assoc. cbn [app]. do 3 f_equal.
    apply filter_ext_in. intros c' Hc'.
    rewrite has_column_app. unfold has_column at 2. cbn.
    destruct (String.eqb c' c) eqn:Ecc.
    + apply String.eqb_eq in Ecc. subst. contradiction.
    + now rewrite !orb_false_r.
Qed.

Lemma labels_clean_labels (df : Frame Column) :
  labels (clean_labels df) = map (fun c => lower (strip (fst c))) df.
Proof. unfold labels, clean_labels. now rewrite map_map. Qed.

Lemma normalize_columns_shape (df : Frame Column) :
  normalize_columns na_column df
  = clean_labels df
    ++ map (fun c => (c, na_column))
           (filter (fun c => negb (has_column c (clean_labels df)))
                   required_cols).
Proof.
  unfold normalize_columns, ensure_required.
  apply ensure_columns_appends, required_cols_distinct.
Qed.

Lemma clean_labels_idempotent (df : Frame Column) :
  clean_labels (clean_labels df) = clean_labels df.
Proof.
  unfold clean_labels. rewrite map_map. apply map_ext. intros [c v].
  cbn [fst snd]. now rewrite clean_label_idempotent.
Qed.

End Frames.

Section FrameLookups.
Import Columns.

Context {Column : Type}.
Variable na_column : Column.

Lemma required_label_present (df : Frame Column) c :
  In c required_cols -> has_column c (normalize_columns na_column df) = true.
Proof.
  intros Hc. rewrite normalize_columns_shape, has_column_app.
  destruct (has_column c (clean_labels df)) eqn:E; [reflexivity |].
  cbn [orb]. apply has_column_iff. unfold labels. rewrite map_map. cbn [fst].
  rewrite map_id. apply filter_In. split; [exact Hc | now rewrite E].
Qed.

Lemma clean_labels_normalized (df : Frame Column) :
  clean_labels (normalize_columns na_column df)
  = normalize_columns na_column df.
Proof.
  rewrite normalize_columns_shape.
  unfold clean_labels at 1. rewrite map_app.
  fold (clean_labels (clean_labels df)). rewrite clean_labels_idempotent.
  f_equal. rewrite map_map. apply map_ext_in. intros c Hc. cbn [fst snd].
  apply filter_In in Hc. destruct Hc as [Hc _].
  pose proof required_cols_clean as Hclean. rewrite Forall_forall in Hclean.
  now rewrite (Hclean c Hc).
Qed.

Lemma filter_label_absent c (df : Frame Column) :
  ~ In c (labels df) -> filter (fun x => String.eqb c (fst x)) df = [].
Proof.
  intros Hc. apply filter_none. intros [h v] Hin. cbn [fst].
  apply String.eqb_neq. intros ->. apply Hc.
  unfold labels. now apply (in_map fst) in Hin.
Qed.

Lemma filter_label_unique c v (df : Frame Column) :
  NoDup (labels df) -> In (c, v) df ->
  filter (fun x => String.eqb c (fst x)) df = [(c, v)].
Proof.
  unfold labels. induction df as [| [h w] df IH]; cbn [map fst filter In];
    intros Hnd Hin; [contradiction |].
  inversion Hnd as [| ? ? Hh Hrest]; subst.
  destruct Hin as [Heq | Hin].
  - injection Heq as -> ->. rewrite String.eqb_refl.
    now rewrite (filter_label_absent c df Hh).
  - destruct (String.eqb c h) eqn:E; [| now apply IH].
    apply String.eqb_eq in E. subst h. exfalso. apply Hh.
    now apply (in_map fst) in Hin.
Qed.

End FrameLookups.

(** ** Properties of the header normalisation (lines 37-41) *)

(** X1.  After lines 37-41 the table has the uploaded columns first, in their
    order and with their content, under cleaned labels; behind them one empty
    column for each required label that no cleaned label equals, in the order
    of [required_cols].  So every required label is a column label, and a
    header such as " Wins " counts as the column wins. *)
Theorem normalized_header {Column : Type} (na_column : Column)
        (df : Columns.Frame Column) :
  let out := Columns.normalize_columns na_column df in
  let missing :=
    filter (fun c => negb (Columns.has_column c (Columns.clean_labels df)))
           Columns.required_cols in
  out = Columns.clean_labels df ++ map (fun c => (c, na_column)) missing /\
  (forall c, In c Columns.required_cols -> In c (Columns.labels out)) /\
  (forall c, In c missing <->
             In c Columns.required_cols /\
             forall h v, In (h, v) df ->
                         Columns.lower (Columns.strip h) <> c).
Proof.
  intros out missing. subst out missing.
  split; [apply normalize_columns_shape |].
  split.
  - intros c Hc. apply has_column_iff. now apply required_label_present.
  - intros c. rewrite filter_In, negb_true_iff, <- not_true_iff_false.
    rewrite has_column_iff, labels_clean_labels, in_map_iff.
    split; intros [Hc Hno]; (split; [exact Hc |]).
    + intros h v Hin Heq. apply Hno. now exists (h, v).
    + intros [[h v] [Heq Hin]]. exact (Hno h v Hin Heq).
Qed.

(** X2.  Normalising the header twice is normalising it once: cleaned labels
    are clean and no column is added a second time. *)
Theorem normalize_columns_idempotent {Column : Type} (na_column : Column)
        (df : Columns.Frame Column) :
  Columns.normalize_columns na_column
    (Columns.normalize_columns na_column df)
  = Columns.normalize_columns na_column df.
Proof.
  rewrite (normalize_columns_shape na_column
             (Columns.normalize_columns na_column df)).
  rewrite clean_labels_normalized.
  rewrite (filter_none _ Columns.required_cols); [apply app_nil_r |].
  intros c Hc. now rewrite (required_label_present na_column df c Hc).
Qed.

(** X3.  When no two uploaded headers clean to the same label, each required
    column can be read after lines 37-41: it is the uploaded column whose
    header cleans to the label, whatever its case and outer spaces, and the
    empty column when there is no such header. *)
Theorem required_column_lookup {Column : Type} (na_column : Column)
        (df : Columns.Frame Column) (c : string) :
  NoDup (Columns.labels (Columns.clean_labels df)) ->
  In c Columns.required_cols ->
  (forall h v, In (h, v) df -> Columns.lower (Columns.strip h) = c ->
               Columns.column_of c (Columns.normalize_columns na_column df)
               = Some v) /\
  ((forall h v, In (h, v) df -> Columns.lower (Columns.strip h) <> c) ->
   Columns.column_of c (Columns.normalize_columns na_column df)
   = Some na_column).
Proof.
  intros Hnd Hc. rewrite normalize_columns_shape.
  unfold Columns.column_of. rewrite filter_app. split.
  - intros h v Hin Heq.
    assert (Hin' : In (c, v) (Columns.clean_labels df)).
    { unfold Columns.clean_labels. apply in_map_iff. exists (h, v).
      cbn [fst snd]. now rewrite Heq. }
    rewrite (filter_label_unique c v _ Hnd Hin').
    rewrite filter_label_absent; [reflexivity |].
    unfold Columns.labels. rewrite map_map. cbn [fst]. rewrite map_id.
    rewrite filter_In. intros [_ Hneg].
    apply negb_true_iff in Hneg.
    assert (Hhas : Columns.has_column c (Columns.clean_labels df) = true).
    { apply has_column_iff. now apply (in_map fst) in Hin'. }
    congruence.
  - intros Hno.
    assert (Habs : ~ In c (Columns.labels (Columns.clean_labels df))).
    { rewrite labels_clean_labels, in_map_iff.
      intros [[h v] [Heq Hin]]. exact (Hno h v Hin Heq). }
    rewrite (filter_label_absent c _ Habs). cbn [app].
    assert (Hin : In (c, na_column)
                     (map (fun c0 => (c0, na_column))
                          (filter (fun c0 =>
                                     negb (Columns.has_column
                                             c0 (Columns.clean_labels df)))
                                  Columns.required_cols))).
    { apply in_map_iff. exists c. split; [reflexivity |].
      apply filter_In. split; [exact Hc |].
      apply negb_true_iff, not_true_iff_false.
      now rewrite has_column_iff. }
    rewrite (filter_label_unique c na_column _) ; [reflexivity | | exact Hin].
    unfold Columns.labels. rewrite map_map. cbn [fst]. rewrite map_id.
    apply NoDup_filter, required_cols_distinct.
Qed.

Lemma required_column_lookup_witness :
  let df := [(" Wins "%string, [CNum 3]); ("PLAYER"%string, [CText "Alpha"])] in
  (forall h v, In (h, v) df ->
               Columns.lower (Columns.strip h) = "wins"%string ->
               Columns.column_of "wins" (Columns.normalize_columns [CNA] df)
               = Some v) /\
  ((forall h v, In (h, v) df ->
                Columns.lower (Columns.strip h) <> "wins"%string) ->
   Columns.column_of "wins" (Columns.normalize_columns [CNA] df)
   = Some [CNA]).
Proof.
  intros df.
  apply (required_column_lookup [CNA] df "wins").
  - vm_compute. repeat constructor; cbn; intuition discriminate.
  - vm_compute. tauto.
Defined.

(** ** Further properties of the Normalizer and the Inferencer *)

Lemma clean_row_at raw out i r :
  clean raw = Some out ->
  nth_error raw i = Some r ->
  nth_error out i
  = Some (RowWise.infer_row (RowWise.rescale_row (Normalizer.coerce_row r)))
  /\ RowWise.casts_ok (RowWise.rescale_row (Normalizer.coerce_row r)) = true.
Proof.
  unfold clean. rewrite RowWiseFacts.normalize_rowwise. intros Hinf Hr.
  apply (infer_row_at _ _ i _ Hinf). now rewrite nth_error_map, Hr.
Qed.

(** Rounding moves a number by at most one half. *)
Lemma round_half_even_close x :
  x - (1 # 2) <= inject_Z (round_half_even x) /\
  inject_Z (round_half_even x) <= x + (1 # 2).
Proof.
  pose proof (Qfloor_le x) as Hlo. pose proof (Qlt_floor x) as Hhi.
  rewrite inject_Z_plus in Hhi. change (inject_Z 1) with 1 in Hhi.
  unfold round_half_even.
  destruct (Qgt_bool (1 # 2) (x - inject_Z (Qfloor x))) eqn:E1.
  - apply Qgt_bool_true in E1. split; lra.
  - apply Qgt_bool_false in E1.
    destruct (Qgt_bool (x - inject_Z (Qfloor x)) (1 # 2)) eqn:E2.
    + rewrite inject_Z_plus. change (inject_Z 1) with 1. split; lra.
    + apply Qgt_bool_false in E2.
      destruct (Z.even (Qfloor x)).
      * split; lra.
      * rewrite inject_Z_plus. change (inject_Z 1) with 1. split; lra.
Qed.

Lemma estimate_uses_rescaled_rate c g p :
  wins c = None -> games c = Some g -> win_rate c = Some p ->
  let rate := if Qgt_bool p 1 then p / 100 else p in
  let c' := RowWise.infer_row (RowWise.rescale_row c) in
  win_rate c' = Some rate /\
  wins c' = Some (inject_Z (round_half_even (g * rate))).
Proof.
  destruct c as [pl fs wr w l gm mu m pr]. cbn [wins games win_rate].
  intros -> -> ->. cbv zeta.
  cbv [RowWise.rescale_row win_rate cell_gt cell_div_scalar set_win_rate
       player final_standing wins losses games mu_rating model prompt].
  destruct (Qgt_bool p 1); destruct l; eval_row; rewrite ?Qfloor_Z;
    split; reflexivity.
Qed.



(** X5.  The table the Inferencer produces has no null in its six numeric
    columns: what no rule could derive, and what was no number in the upload,
    is a number after line 76. *)
Theorem inferred_table_has_no_nulls df out r' :
  Inferencer.infer df = Some out ->
  In r' out ->
  final_standing r' <> None /\ win_rate r' <> None /\ wins r' <> None /\
  losses r' <> None /\ games r' <> None /\ mu_rating r' <> None.
Proof.
  intros Hinf Hin. rewrite (infer_output _ _ Hinf) in Hin.
  apply in_map_iff in Hin. destruct Hin as [r [<- _]].
  apply infer_row_no_nulls.
Qed.

Lemma inferred_table_has_no_nulls_witness :
  let r' := mkRow None (Some 0) (Some 0) (Some 0) (Some 0) (Some 0) (Some 0)
                  None None in
  final_standing r' <> None /\ win_rate r' <> None /\ wins r' <> None /\
  losses r' <> None /\ games r' <> None /\ mu_rating r' <> None.
Proof.
  intros r'.
  apply (inferred_table_has_no_nulls [stats_row None None None None] [r'] r').
  - vm_compute. reflexivity.
  - left. reflexivity.
Defined.

Lemma pipeline_row_frame c :
  let c' := RowWise.infer_row (RowWise.rescale_row c) in
  player c' = player c /\ model c' = model c /\ prompt c' = prompt c /\
  final_standing c' = Some (ViewBuilder.value (final_standing c)) /\
  mu_rating c' = Some (ViewBuilder.value (mu_rating c)).
Proof.
  destruct c as [pl [fs|] [wr|] [w|] [l|] [g|] [mu|] m pr]; cbv zeta;
    cbv [RowWise.rescale_row win_rate cell_gt cell_div_scalar set_win_rate
         player final_standing wins losses games mu_rating model prompt];
    try destruct (Qgt_bool wr 1); eval_row; case_guards; eval_row;
    repeat split; reflexivity.
Qed.

(** X6.  Cleaning keeps the rows and their order and touches only the four
    statistics: the cleaned table has as many rows as the upload, and row by
    row player, model and prompt are the uploaded ones, and final_standing and
    mu_rating are the uploaded number, or 0 where the upload had no number. *)
Theorem cleaning_keeps_rows_and_other_columns raw out :
  clean raw = Some out ->
  List.length out = List.length raw /\
  forall i r r',
    nth_error raw i = Some r -> nth_error out i = Some r' ->
    player r' = raw_player r /\
    model r' = raw_model r /\
    prompt r' = raw_prompt r /\
    final_standing r'
    = Some (ViewBuilder.value (Normalizer.to_numeric (raw_final_standing r))) /\
    mu_rating r'
    = Some (ViewBuilder.value (Normalizer.to_numeric (raw_mu_rating r))).
Proof.
  intros Hclean. split.
  - unfold clean in Hclean. rewrite (infer_length _ _ Hclean).
    rewrite RowWiseFacts.normalize_rowwise. apply length_map.
  - intros i r r' Hr Hr'.
    destruct (clean_row_at raw out i r Hclean Hr) as [Hout _].
    rewrite Hout in Hr'. injection Hr' as <-.
    exact (pipeline_row_frame (Normalizer.coerce_row r)).
Qed.

Lemma cleaning_keeps_rows_and_other_columns_witness :
  let raw := [mkRawRow (Some "Alpha"%string) (CText "first") (CNum 92) CNA CNA
                       (CNum 25) (CNum 2100) (Some "M"%string) None] in
  let out := [mkRow (Some "Alpha"%string) (Some 0) (Some (92 / 100)) (Some 23)
                    (Some 2) (Some 25) (Some 2100) (Some "M"%string) None] in
  List.length out = List.length raw /\
  forall i r r',
    nth_error raw i = Some r -> nth_error out i = Some r' ->
    player r' = raw_player r /\
    model r' = raw_model r /\
    prompt r' = raw_prompt r /\
    final_standing r'
    = Some (ViewBuilder.value (Normalizer.to_numeric (raw_final_standing r))) /\
    mu_rating r'
    = Some (ViewBuilder.value (Normalizer.to_numeric (raw_mu_rating r))).
Proof.
  intros raw out.
  apply (cleaning_keeps_rows_and_other_columns raw out).
  vm_compute. reflexivity.
Defined.

Lemma estimated_wins_row r g w :
  wins r = None -> games r = Some g -> win_rate r = Some w ->
  wins (RowWise.infer_row r) = Some (inject_Z (round_half_even (g * w))).
Proof.
  destruct r as [pl fs wr ws [l|] gm mu m pr]; cbn [wins games win_rate];
    intros -> -> ->; eval_row; now rewrite Qfloor_Z.
Qed.



Lemma filled_totals_row r :
  RowWise.casts_ok r = true ->
  (losses r = None /\ games r <> None /\
   (wins r <> None \/ win_rate r <> None))
  \/ (games r = None /\ wins r <> None /\ losses r <> None) ->
  exists w l g,
    wins (RowWise.infer_row r) = Some w /\
    losses (RowWise.infer_row r) = Some l /\
    games (RowWise.infer_row r) = Some g /\
    w + l == g.
Proof.
  destruct r as [pl fs [wr|] [w|] [l|] [g|] mu m pr];
    cbn [wins losses games win_rate]; intros Hok Hcase;
    try (exfalso; intuition congruence); clear Hcase;
    revert Hok; eval_row; intros Hok; split_casts;
    rewrite ?Qfloor_Z in *; case_guards; eval_row;
    do 3 eexists; (split; [reflexivity |]); (split; [reflexivity |]);
    (split; [reflexivity |]).
  all: repeat match goal with
         | H : inject_Z (Qfloor ?x) == ?x |- context [Qfloor ?x] =>
             rewrite H
         end; try ring.
Qed.

(** X8.  When the Inferencer fills losses (losses missing, games present, and
    wins present or estimated from win_rate) or fills games (games missing,
    wins and losses present), the row ends with wins + losses == games. *)
Theorem filled_totals_add_up df out i r r' :
  Inferencer.infer df = Some out ->
  nth_error df i = Some r ->
  nth_error out i = Some r' ->
  (losses r = None /\ games r <> None /\
   (wins r <> None \/ win_rate r <> None))
  \/ (games r = None /\ wins r <> None /\ losses r <> None) ->
  exists w l g,
    wins r' = Some w /\ losses r' = Some l /\ games r' = Some g /\
    w + l == g.
Proof.
  intros Hinf Hr Hr' Hcase.
  destruct (infer_row_at df out i r Hinf Hr) as [Hout Hok].
  rewrite Hout in Hr'. injection Hr' as <-.
  now apply filled_totals_row.
Qed.

Lemma filled_totals_add_up_witness :
  let r' := mkRow None (Some 0) (Some (7 # 10)) (Some 7) (Some 3) (Some 10)
                  (Some 0) None None in
  exists w l g,
    wins r' = Some w /\ losses r' = Some l /\ games r' = Some g /\
    w + l == g.
Proof.
  intros r'.
  apply (filled_totals_add_up
           [stats_row (Some 7) (Some 3) None None] [r']
           0%nat (stats_row (Some 7) (Some 3) None None)).
  - vm_compute. reflexivity.
  - reflexivity.
  - reflexivity.
  - right. cbn. repeat split; discriminate.
Defined.

Lemma not_integer_minus_integer g z :
  is_integer g = false -> is_integer (g - inject_Z z) = false.
Proof.
  intros Hg. apply not_true_iff_false. intros H.
  apply not_true_iff_false in Hg. apply Hg.
  apply is_integer_iff in H. destruct H as [x Hx].
  apply is_integer_iff. exists (x + z)%Z. rewrite inject_Z_plus, <- Hx. ring.
Qed.

Lemma fractional_row_fails_cast r :
  (exists w g,
      wins r = Some w /\ games r = Some g /\ is_integer (g - w) = false)
  \/ (exists w l,
         wins r = Some w /\ losses r = Some l /\ is_integer (w + l) = false)
  \/ (exists g wr,
         wins r = None /\ games r = Some g /\ win_rate r = Some wr /\
         is_integer g = false) ->
  RowWise.casts_ok r = false.
Proof.
  destruct r as [pl fs [wr|] [w|] [l|] [g|] mu m pr];
    cbn [wins losses games win_rate];
    intros [(x & y & H1 & H2 & H3) | [(x & y & H1 & H2 & H3)
                                     | (x & y & H1 & H2 & H3 & H4)]];
    try discriminate;
    repeat match goal with
           | H : Some _ = Some _ |- _ =>
               apply (f_equal ViewBuilder.value) in H;
               cbn [ViewBuilder.value] in H; subst
           end;
    eval_row; rewrite ?Qfloor_Z, ?is_integer_inject_Z;
    rewrite ?H3, ?(not_integer_minus_integer _ _ H4);
    try reflexivity;
    repeat match goal with
           | |- context [if ?b then _ else _] => destruct b
           end; reflexivity.
Qed.



(** ** Further properties of the View Builder *)

Lemma StronglySorted_filter {A : Type} (R : A -> A -> Prop) (f : A -> bool)
      (l : list A) :
  StronglySorted R l -> StronglySorted R (filter f l).
Proof.
  induction 1 as [| x l Hl IH Hx]; cbn; [constructor |].
  destruct (f x); [| exact IH].
  constructor; [exact IH |].
  apply Forall_forall. intros y Hy. apply filter_In in Hy.
  rewrite Forall_forall in Hx. now apply Hx.
Qed.

Lemma find_is_first_filtered {A : Type} (f : A -> bool) (l : list A) :
  find f l = hd_error (filter f l).
Proof.
  induction l as [| x l IH]; cbn; [reflexivity |].
  destruct (f x); [reflexivity | exact IH].
Qed.

Lemma sort_values_in_direction argsort o df :
  Argsort.sorts argsort ->
  StronglySorted
    (fun a b => if ViewBuilder.ascending o
                then ViewBuilder.column o a <= ViewBuilder.column o b
                else ViewBuilder.column o b <= ViewBuilder.column o a)
    (ViewBuilder.sort_values argsort o (ViewBuilder.ascending o) df).
Proof.
  intros Hsorts. destruct (ViewBuilder.ascending o).
  - now apply sort_values_ascending.
  - now apply sort_values_descending.
Qed.

(** X12.  The first row of the sorted table has the best key: the least one
    when the key is Final Standing or Losses, the greatest one otherwise. *)
Theorem sorted_table_leads_with_best argsort o df top rest :
  Argsort.sorts argsort ->
  ViewBuilder.sort_values argsort o (ViewBuilder.ascending o) df
  = top :: rest ->
  forall r, In r df ->
            if ViewBuilder.ascending o
            then ViewBuilder.column o top <= ViewBuilder.column o r
            else ViewBuilder.column o r <= ViewBuilder.column o top.
Proof.
  intros Hsorts Hsorted r Hr.
  pose proof (sort_values_in_direction argsort o df Hsorts) as Hdir.
  pose proof (sort_values_permutation argsort Hsorts o
                (ViewBuilder.ascending o) df) as Hperm.
  rewrite Hsorted in Hdir, Hperm.
  apply (Permutation_in r (Permutation_sym Hperm)) in Hr.
  inversion Hdir as [| ? ? _ Hall]; subst.
  destruct Hr as [<- | Hr].
  - destruct (ViewBuilder.ascending o); apply Qle_refl.
  - rewrite Forall_forall in Hall. now apply Hall.
Qed.

Lemma sorted_table_leads_with_best_witness :
  let alpha := view_row "Alpha" 1 (92 # 100) 23 2 25 in
  let bravo := view_row "Bravo" 3 (78 # 100) 21 6 27 in
  if ViewBuilder.ascending ViewBuilder.ByWinRate
  then ViewBuilder.column ViewBuilder.ByWinRate alpha
       <= ViewBuilder.column ViewBuilder.ByWinRate bravo
  else ViewBuilder.column ViewBuilder.ByWinRate bravo
       <= ViewBuilder.column ViewBuilder.ByWinRate alpha.
Proof.
  intros alpha bravo.
  apply (sorted_table_leads_with_best Argsort.stable_argsort
           ViewBuilder.ByWinRate [bravo; alpha] alpha [bravo]).
  - exact stable_argsort_sorts.
  - vm_compute. reflexivity.
  - left. reflexivity.
Defined.

(** X13.  When the pin selection is not "None" and some row has that player,
    the pinned table starts with the first such row of the table. *)
Theorem pinned_player_is_first pin_choice df :
  pin_choice <> "None"%string ->
  (exists r, In r df /\ ViewBuilder.player_is pin_choice r = true) ->
  exists top rest,
    ViewBuilder.pin pin_choice df = top :: rest /\
    ViewBuilder.player_is pin_choice top = true /\
    find (ViewBuilder.player_is pin_choice) df = Some top.
Proof.
  intros Hpin [r [Hin Hr]]. rewrite (pin_unfold pin_choice df Hpin).
  rewrite find_is_first_filtered.
  assert (Hf : In r (filter (ViewBuilder.player_is pin_choice) df))
    by now apply filter_In.
  destruct (filter (ViewBuilder.player_is pin_choice) df)
    as [| top front] eqn:E;
    [contradiction |].
  exists top,
    (front
     ++ filter (fun x => negb (ViewBuilder.player_is pin_choice x)) df).
  split; [reflexivity |]. split; [| reflexivity].
  assert (Htop : In top (filter (ViewBuilder.player_is pin_choice) df))
    by (rewrite E; now left).
  now apply filter_In in Htop.
Qed.

Lemma pinned_player_is_first_witness :
  let alpha := view_row "Alpha" 1 (92 # 100) 23 2 25 in
  let bravo := view_row "Bravo" 3 (78 # 100) 21 6 27 in
  exists top rest,
    ViewBuilder.pin "Bravo" [alpha; bravo] = top :: rest /\
    ViewBuilder.player_is "Bravo" top = true /\
    find (ViewBuilder.player_is "Bravo") [alpha; bravo] = Some top.
Proof.
  intros alpha bravo.
  apply (pinned_player_is_first "Bravo" [alpha; bravo]).
  - intros H. discriminate H.
  - exists bravo. split; [right; left; reflexivity | reflexivity].
Defined.

(** X14.  Pinning keeps the sort order inside its two blocks.  With the pin
    selection "None" the whole view is ordered by the sort key in the
    direction of the sort; with another selection the view is its rows with
    that player followed by its other rows, and each of these two blocks is
    ordered by the sort key in that direction. *)
Theorem pin_keeps_sort_order argsort o pin_choice df :
  Argsort.sorts argsort ->
  let in_order a b :=
    if ViewBuilder.ascending o
    then ViewBuilder.column o a <= ViewBuilder.column o b
    else ViewBuilder.column o b <= ViewBuilder.column o a in
  let view := ViewBuilder.build argsort o pin_choice df in
  let pinned := filter (ViewBuilder.player_is pin_choice) view in
  let others :=
    filter (fun r => negb (ViewBuilder.player_is pin_choice r)) view in
  (pin_choice = "None"%string -> StronglySorted in_order view) /\
  (pin_choice <> "None"%string ->
   view = pinned ++ others /\
   StronglySorted in_order pinned /\
   StronglySorted in_order others).
Proof.
  intros Hsorts in_order view pinned others.
  pose proof (sort_values_in_direction argsort o (ViewBuilder.rename df)
                Hsorts) as Hdir.
  fold in_order in Hdir.
  subst pinned others view. unfold ViewBuilder.build. split.
  - intros ->. exact Hdir.
  - intros Hpin. rewrite (pin_unfold pin_choice _ Hpin).
    rewrite !filter_app.
    rewrite filter_filter_same, filter_filter_neg, filter_neg_filter.
    rewrite (filter_filter_same
               (fun r => negb (ViewBuilder.player_is pin_choice r))).
    rewrite app_nil_r. cbn [app].
    split; [reflexivity |].
    split; now apply StronglySorted_filter.
Qed.

Lemma pin_keeps_sort_order_witness :
  let df := [mkRow (Some "Alpha"%string) None None (Some 23) (Some 2) None
                   None None None;
             mkRow (Some "Bravo"%string) None None (Some 21) (Some 6) None
                   None None None;
             mkRow (Some "Delta"%string) None None (Some 20) (Some 4) None
                   None None None] in
  let o := ViewBuilder.ByLosses in
  let in_order a b :=
    if ViewBuilder.ascending o
    then ViewBuilder.column o a <= ViewBuilder.column o b
    else ViewBuilder.column o b <= ViewBuilder.column o a in
  let view := ViewBuilder.build Argsort.stable_argsort o "Bravo" df in
  let pinned := filter (ViewBuilder.player_is "Bravo") view in
  let others :=
    filter (fun r => negb (ViewBuilder.player_is "Bravo" r)) view in
  ("Bravo"%string = "None"%string -> StronglySorted in_order view) /\
  ("Bravo"%string <> "None"%string ->
   view = pinned ++ others /\
   StronglySorted in_order pinned /\
   StronglySorted in_order others).
Proof.
  intros df o.
  exact (pin_keeps_sort_order Argsort.stable_argsort o "Bravo" df
                              stable_argsort_sorts).
Defined.

(** X15.  Pinning twice with the same selection is pinning once. *)
Theorem pin_idempotent pin_choice df :
  ViewBuilder.pin pin_choice (ViewBuilder.pin pin_choice df)
  = ViewBuilder.pin pin_choice df.
Proof.
  unfold ViewBuilder.pin.
  destruct (negb (String.eqb pin_choice "None")); [| reflexivity].
  rewrite !filter_app.
  rewrite filter_filter_same, filter_filter_neg, filter_neg_filter.
  rewrite (filter_filter_same
             (fun r => negb (ViewBuilder.player_is pin_choice r))).
  now rewrite app_nil_r.
Qed.



(** ** numpy's quicksort on a short column *)

(** A column of at most 17 keys never reaches the partition step: it is
    sorted by insertion, which leaves equal keys in place. *)

Lemma get_middle (l : list nat) x r :
  Numpy.get (l ++ x :: r) (List.length l) = x.
Proof. unfold Numpy.get. apply nth_middle. Qed.

Lemma set_middle (l : list nat) x r z :
  Numpy.set (l ++ x :: r) (List.length l) z = l ++ z :: r.
Proof. induction l as [| y l IH]; cbn; [reflexivity | now rewrite IH]. Qed.

Lemma shift_inserts v vi R :
  forall h post fuel,
    (List.length R <= fuel)%nat ->
    (let '(tosort, pj) :=
       Numpy.shift fuel v (rev R ++ h :: post) (Numpy.key v vi) 0
                   (List.length R) in
     Numpy.set tosort pj vi)
    = rev (Numpy.insert_from_end v vi R) ++ post.
Proof.
  induction R as [| y R IH]; intros h post fuel Hfuel.
  - destruct fuel; reflexivity.
  - destruct fuel as [| fuel]; [cbn in Hfuel; lia |].
    cbn [Numpy.shift List.length rev Numpy.insert_from_end].
    replace (S (List.length R) - 1)%nat with (List.length R) by lia.
    rewrite <- app_assoc. cbn [app].
    rewrite <- (length_rev R) at 1 2. rewrite get_middle.
    cbn [Nat.ltb Nat.leb andb].
    destruct (Numpy.less (Numpy.key v vi) (Numpy.key v y)).
    + replace (rev R ++ y :: h :: post) with ((rev R ++ [y]) ++ h :: post)
        by now rewrite <- app_assoc.
      replace (S (List.length R)) with (List.length (rev R ++ [y]))
        by (rewrite length_app, length_rev; cbn; lia).
      rewrite set_middle, <- app_assoc. cbn [app].
      rewrite IH by (cbn in Hfuel; lia).
      replace (Numpy.get ((rev R ++ [y]) ++ h :: post) (List.length R))
        with y
        by (rewrite <- app_assoc, <- (length_rev R); cbn [app];
            now rewrite get_middle).
      cbn [rev]. now rewrite <- app_assoc.
    + replace (rev R ++ y :: h :: post) with ((rev R ++ [y]) ++ h :: post)
        by now rewrite <- app_assoc.
      replace (S (List.length R)) with (List.length (rev R ++ [y]))
        by (rewrite length_app, length_rev; cbn; lia).
      rewrite set_middle. cbn [rev]. now rewrite <- !app_assoc.
Qed.

Lemma insert_from_end_length v vi R :
  List.length (Numpy.insert_from_end v vi R) = S (List.length R).
Proof.
  induction R as [| y R IH]; cbn; [reflexivity |].
  destruct (Numpy.less _ _); cbn; [now rewrite IH | reflexivity].
Qed.

Lemma sorted_from_end_S v k :
  Numpy.sorted_from_end v (S k)
  = Numpy.insert_from_end v k (Numpy.sorted_from_end v k).
Proof.
  unfold Numpy.sorted_from_end. now rewrite seq_S, fold_left_app.
Qed.

Lemma sorted_from_end_length v k :
  List.length (Numpy.sorted_from_end v k) = k.
Proof.
  induction k as [| k IH]; [reflexivity |].
  now rewrite sorted_from_end_S, insert_from_end_length, IH.
Qed.

(** One turn of the insertion loop, on the array and on the list. *)
Lemma insert_step v R pi post :
  List.length R = pi ->
  Numpy.insert v 0 (rev R ++ pi :: post) pi
  = rev (Numpy.insert_from_end v pi R) ++ post.
Proof.
  intros Hlen. unfold Numpy.insert.
  assert (Hget : Numpy.get (rev R ++ pi :: post) pi = pi).
  { rewrite <- Hlen at 2. rewrite <- (length_rev R). apply get_middle. }
  rewrite Hget.
  pose proof (shift_inserts v pi R pi post pi) as H.
  rewrite Hlen in H. apply H. lia.
Qed.

Lemma insertion_prefix v n m :
  (m < n)%nat ->
  fold_left (Numpy.insert v 0) (seq 1 m) (seq 0 n)
  = rev (Numpy.sorted_from_end v (S m)) ++ seq (S m) (n - S m).
Proof.
  induction m as [| m IH]; intros Hm.
  - destruct n as [| n]; [lia |]. cbn. now rewrite Nat.sub_0_r.
  - rewrite seq_S, fold_left_app, IH by lia. cbn [fold_left Nat.add].
    replace (n - S m)%nat with (S (n - S (S m))) by lia.
    cbn [seq].
    rewrite insert_step by apply sorted_from_end_length.
    now rewrite <- sorted_from_end_S.
Qed.

Lemma insertion_sort_all v n :
  Numpy.insertion_sort v (seq 0 n) 0 (n - 1)
  = rev (Numpy.sorted_from_end v n).
Proof.
  unfold Numpy.insertion_sort. destruct n as [| n]; [reflexivity |].
  cbn [Nat.add]. replace (S n - 1 - 0)%nat with n by lia.
  rewrite insertion_prefix by lia.
  now rewrite Nat.sub_diag, app_nil_r.
Qed.

(** A column of at most 17 keys is sorted by the insertion loop alone. *)
Lemma aquicksort_short v :
  (List.length v <= 17)%nat ->
  Numpy.aquicksort v = Some (rev (Numpy.sorted_from_end v (List.length v))).
Proof.
  intros Hlen. unfold Numpy.aquicksort.
  replace (2 * List.length v + 1)%nat with (S (2 * List.length v)) by lia.
  cbn [Numpy.aquicksort_loop andb].
  assert (Hdepth : (2 * Z.log2 (Z.of_nat (List.length v)) <? 0)%Z = false).
  { apply Z.ltb_ge. pose proof (Z.log2_nonneg (Z.of_nat (List.length v))).
    lia. }
  rewrite Hdepth.
  assert (Hsmall : (Numpy.SMALL_QUICKSORT <? List.length v - 1 - 0)%nat
                   = false).
  { apply Nat.ltb_ge. unfold Numpy.SMALL_QUICKSORT. lia. }
  rewrite Hsmall. now rewrite insertion_sort_all.
Qed.

Lemma less_true a b : Numpy.less a b = true -> a < b.
Proof.
  unfold Numpy.less. intros H. apply negb_true_iff in H.
  now apply Qle_bool_false.
Qed.

Lemma less_false a b : Numpy.less a b = false -> b <= a.
Proof.
  unfold Numpy.less. intros H. apply negb_false_iff in H.
  now apply Qle_bool_iff.
Qed.

Lemma insert_from_end_permutation v vi R :
  Permutation (Numpy.insert_from_end v vi R) (vi :: R).
Proof.
  induction R as [| y R IH]; cbn; [reflexivity |].
  destruct (Numpy.less _ _); [| reflexivity].
  rewrite IH. apply perm_swap.
Qed.

(** Read from its end, the sorted part has its keys in descending order. *)
Lemma insert_from_end_sorted v vi R :
  StronglySorted (fun i j => Numpy.key v j <= Numpy.key v i) R ->
  StronglySorted (fun i j => Numpy.key v j <= Numpy.key v i)
                 (Numpy.insert_from_end v vi R).
Proof.
  induction 1 as [| y R HR IH Hy]; cbn; [repeat constructor |].
  destruct (Numpy.less (Numpy.key v vi) (Numpy.key v y)) eqn:E.
  - constructor; [exact IH |].
    eapply Permutation_Forall;
      [symmetry; apply insert_from_end_permutation |].
    constructor; [| exact Hy]. apply less_true in E. now apply Qlt_le_weak.
  - apply less_false in E.
    constructor; [now constructor |].
    constructor; [exact E |].
    eapply Forall_impl; [| exact Hy].
    intros z Hz. cbv beta in *. eapply Qle_trans; eassumption.
Qed.

(** An entry goes above the entries that share its key. *)
Lemma insert_from_end_filter v k vi R :
  let tie i := Qeq_bool (Numpy.key v i) k in
  filter tie (Numpy.insert_from_end v vi R)
  = if tie vi then vi :: filter tie R else filter tie R.
Proof.
  intros tie. induction R as [| y R IH]; cbn.
  - destruct (tie vi); reflexivity.
  - destruct (Numpy.less (Numpy.key v vi) (Numpy.key v y)) eqn:E.
    + cbn. rewrite IH. subst tie. cbv beta.
      destruct (Qeq_bool (Numpy.key v vi) k) eqn:Ei;
        destruct (Qeq_bool (Numpy.key v y) k) eqn:Ey;
        try reflexivity.
      exfalso. apply less_true in E.
      apply Qeq_bool_eq in Ei. apply Qeq_bool_eq in Ey.
      rewrite Ei, Ey in E. now apply Qlt_irrefl in E.
    + cbn. destruct (tie vi); reflexivity.
Qed.

Lemma sorted_from_end_permutation v k :
  Permutation (rev (Numpy.sorted_from_end v k)) (seq 0 k).
Proof.
  rewrite <- Permutation_rev.
  induction k as [| k IH]; [reflexivity |].
  rewrite sorted_from_end_S, insert_from_end_permutation, IH, seq_S.
  change (k :: seq 0 k) with ([k] ++ seq 0 k). apply Permutation_app_comm.
Qed.

Lemma sorted_from_end_sorted v k :
  StronglySorted (fun i j => Numpy.key v i <= Numpy.key v j)
                 (rev (Numpy.sorted_from_end v k)).
Proof.
  apply (StronglySorted_rev (fun i j => Numpy.key v j <= Numpy.key v i)).
  induction k as [| k IH]; [constructor |].
  rewrite sorted_from_end_S. now apply insert_from_end_sorted.
Qed.

Lemma sorted_from_end_stable v key_ k :
  let tie i := Qeq_bool (Numpy.key v i) key_ in
  filter tie (rev (Numpy.sorted_from_end v k)) = filter tie (seq 0 k).
Proof.
  intros tie. induction k as [| k IH]; [reflexivity |].
  rewrite sorted_from_end_S, filter_rev.
  pose proof (insert_from_end_filter v key_ k (Numpy.sorted_from_end v k))
    as H.
  cbv zeta in H. fold tie in H. rewrite H.
  rewrite seq_S, filter_app. cbn [Nat.add filter].
  rewrite <- IH, filter_rev.
  destruct (tie k); cbn [rev]; [reflexivity | now rewrite app_nil_r].
Qed.

Lemma argsort_short v :
  (List.length v <= 17)%nat ->
  Numpy.argsort v = rev (Numpy.sorted_from_end v (List.length v)).
Proof.
  intros Hlen. unfold Numpy.argsort. now rewrite aquicksort_short.
Qed.

Section ShortColumns.

(** numpy's quicksort on the columns it sorts by insertion, and the stable
    argsort on the longer ones. *)
Let short_or_stable (keys : list Q) : list nat :=
  if (List.length keys <=? 17)%nat
  then Numpy.argsort keys
  else Argsort.stable_argsort keys.

Lemma short_or_stable_sorts : Argsort.sorts short_or_stable.
Proof.
  intros keys. unfold short_or_stable.
  destruct (List.length keys <=? 17)%nat eqn:E.
  - apply Nat.leb_le in E. rewrite (argsort_short keys E). split.
    + apply sorted_from_end_permutation.
    + apply sorted_from_end_sorted.
  - apply stable_argsort_sorts.
Qed.

Lemma short_or_stable_stable : Argsort.stable short_or_stable.
Proof.
  intros keys k. unfold short_or_stable.
  destruct (List.length keys <=? 17)%nat eqn:E.
  - apply Nat.leb_le in E. rewrite (argsort_short keys E).
    apply sorted_from_end_stable.
  - apply stable_argsort_stable.
Qed.

Lemma sort_values_short o asc df :
  (List.length df <= 17)%nat ->
  ViewBuilder.sort_values Numpy.argsort o asc df
  = ViewBuilder.sort_values short_or_stable o asc df.
Proof.
  intros Hlen. unfold ViewBuilder.sort_values, ViewBuilder.nargsort.
  assert (Hitems : (List.length (map (ViewBuilder.column o) df) <=? 17)%nat
                   = true)
    by (apply Nat.leb_le; now rewrite length_map).
  assert (Hrev : (List.length (rev (map (ViewBuilder.column o) df)) <=? 17)%nat
                 = true)
    by now rewrite length_rev.
  unfold short_or_stable. destruct asc.
  - now rewrite Hitems.
  - now rewrite Hrev.
Qed.

End ShortColumns.



(** ** Further properties of the Summary Calculator *)

Lemma sum_cons (x : Q) (l : list Q) : sum (x :: l) = x + sum l.
Proof. reflexivity. Qed.

Lemma sum_map_equal {A : Type} (f g : A -> Q) (l : list A) :
  (forall x, In x l -> f x == g x) -> sum (map f l) == sum (map g l).
Proof.
  induction l as [| x l IH]; intros H; cbn; [reflexivity |].
  rewrite (H x (or_introl eq_refl)), IH; [reflexivity |].
  intros y Hy. apply H. now right.
Qed.

Lemma sum_map_le {A : Type} (f g : A -> Q) (l : list A) :
  (forall x, In x l -> f x <= g x) -> sum (map f l) <= sum (map g l).
Proof.
  induction l as [| x l IH]; intros H; cbn; [apply Qle_refl |].
  apply Qplus_le_compat; [apply H; now left |].
  apply IH. intros y Hy. apply H. now right.
Qed.

Lemma sum_map_nonneg {A : Type} (f : A -> Q) (l : list A) :
  (forall x, In x l -> 0 <= f x) -> 0 <= sum (map f l).
Proof.
  induction l as [| x l IH]; intros H; cbn [map]; [apply Qle_refl |].
  rewrite sum_cons.
  assert (H0 : 0 <= f x) by (apply H; now left).
  assert (H1 : 0 <= sum (map f l))
    by (apply IH; intros y Hy; apply H; now right).
  lra.
Qed.

(** A quotient of two sums, guarded as on line 117, lies between 0 and 1 when
    the numerator lies between 0 and the denominator. *)
Lemma guarded_ratio_bounds (w g : Q) :
  0 <= w -> w <= g ->
  0 <= (if Summary.truthy g then w / g else 0) /\
  (if Summary.truthy g then w / g else 0) <= 1.
Proof.
  intros Hw Hwg.
  destruct (Summary.truthy g) eqn:E; [| split; lra].
  apply truthy_true in E.
  assert (Hpos : 0 < g).
  { apply Qnot_le_lt. intros Hle. apply E. lra. }
  apply in_range_iff. now apply rate_in_unit_interval.
Qed.

(** X17.  When every row of the view has 0 <= Wins <= Games, the average win
    rate lies between 0 and 1. *)
Theorem average_win_rate_in_unit_interval (v : View) :
  (forall r, In r v -> 0 <= Wins r /\ Wins r <= Games r) ->
  0 <= Summary.avg_wr v /\ Summary.avg_wr v <= 1.
Proof.
  intros H. unfold Summary.avg_wr. apply guarded_ratio_bounds.
  - apply sum_map_nonneg. intros r Hr. now apply H.
  - apply sum_map_le. intros r Hr. now apply H.
Qed.

Lemma average_win_rate_in_unit_interval_witness :
  let v := [view_row "Alpha" 1 (92 # 100) 23 2 25;
            view_row "Bravo" 3 (78 # 100) 21 6 27] in
  0 <= Summary.avg_wr v /\ Summary.avg_wr v <= 1.
Proof.
  intros v. apply (average_win_rate_in_unit_interval v).
  intros r [<- | [<- | []]]; cbn; split; discriminate.
Defined.

(** X18.  The average win rate is the mean of the rows' win rates weighted by
    their games: when every row has Win Rate * Games == Wins and the games do
    not sum to zero, it is sum(Win Rate * Games) / sum(Games). *)
Theorem average_win_rate_is_weighted_mean (v : View) :
  (forall r, In r v -> Win_Rate r * Games r == Wins r) ->
  ~ sum (map Games v) == 0 ->
  Summary.avg_wr v
  == sum (map (fun r => Win_Rate r * Games r) v) / sum (map Games v).
Proof.
  intros Hrows Hnz. unfold Summary.avg_wr.
  apply truthy_true in Hnz. rewrite Hnz.
  rewrite (sum_map_equal Wins (fun r => Win_Rate r * Games r)); [reflexivity |].
  intros r Hr. symmetry. now apply Hrows.
Qed.

Lemma average_win_rate_is_weighted_mean_witness :
  let v := [view_row "Alpha" 1 (1 # 2) 5 5 10;
            view_row "Bravo" 2 (1 # 4) 1 3 4] in
  Summary.avg_wr v
  == sum (map (fun r => Win_Rate r * Games r) v) / sum (map Games v).
Proof.
  intros v. apply (average_win_rate_is_weighted_mean v).
  - intros r [<- | [<- | []]]; reflexivity.
  - intros H. discriminate H.
Defined.

Lemma sum_of_counts {A : Type} (f : A -> Q) (l : list A) :
  (forall x, In x l -> Quality.is_count (f x) = true) ->
  Quality.is_count (sum (map f l)) = true.
Proof.
  induction l as [| x l IH]; intros H; cbn [map]; [reflexivity |].
  rewrite sum_cons.
  assert (Hx : Quality.is_count (f x) = true) by (apply H; now left).
  assert (Hl : Quality.is_count (sum (map f l)) = true)
    by (apply IH; intros y Hy; apply H; now right).
  apply is_count_iff in Hx. destruct Hx as [a [Ha Ha0]].
  apply is_count_iff in Hl. destruct Hl as [b [Hb Hb0]].
  apply is_count_iff. exists (a + b)%Z. split; [| lia].
  now rewrite Ha, Hb, inject_Z_plus.
Qed.



Lemma take_nil {A : Type} (p : list nat) : ViewBuilder.take p (@nil A) = [].
Proof.
  induction p as [| i p IH]; [reflexivity |].
  rewrite take_cons, IH. now destruct i.
Qed.

(** X20.  An upload without rows gives an empty view and four zero metrics,
    whatever the argsort, the sort key and the pin selection: nothing is
    divided by the zero sum of Games. *)
Theorem empty_table_dashboard argsort o pin_choice :
  dashboard argsort [] o pin_choice
  = Some ([], Summary.mkMetrics 0 0 0 0).
Proof.
  unfold dashboard. cbn [clean Normalizer.normalize map].
  change (clean []) with (Some (@nil Row)). cbn [bind].
  unfold ViewBuilder.build, ViewBuilder.sort_values.
  cbn [ViewBuilder.rename map]. rewrite take_nil.
  unfold ViewBuilder.pin.
  destruct (negb (String.eqb pin_choice "None")); reflexivity.
Qed.

(** ** Further properties of the row highlighting *)

(** The integer part of a number is at most 3 exactly when the number is
    below 4; zero, negative numbers and 3.9 are among them. *)
Lemma py_int_at_most_3 q : (py_int q <= 3)%Z <-> q < 4.
Proof.
  unfold py_int. destruct (Qle_bool 0 q) eqn:E.
  - pose proof (Qfloor_le q) as Hlo. pose proof (Qlt_floor q) as Hhi.
    split; intros H.
    + apply Qlt_le_trans with (inject_Z (Qfloor q + 1)); [exact Hhi |].
      change 4 with (inject_Z 4). rewrite <- Zle_Qle. lia.
    + assert (Hlt : inject_Z (Qfloor q) < inject_Z 4)
        by (apply Qle_lt_trans with q; assumption).
      rewrite <- Zlt_Qlt in Hlt. lia.
  - apply Qle_bool_false in E. pose proof (Qceiling_lt q) as Hc.
    split; intros _; [lra |].
    assert (Hlt : inject_Z (Qceiling q - 1) < inject_Z 0)
      by (apply Qlt_trans with q; assumption).
    rewrite <- Zlt_Qlt in Hlt. lia.
Qed.

Lemma pinned_guard_iff pin_choice row :
  (negb (String.eqb pin_choice "None")
   && ViewBuilder.player_is pin_choice row)%bool = true
  <-> pin_choice <> "None"%string
      /\ ViewBuilder.player_is pin_choice row = true.
Proof.
  rewrite andb_true_iff, negb_true_iff, String.eqb_neq. reflexivity.
Qed.

Lemma styles_differ :
  Highlight.pinned_style <> Highlight.top_three_style /\
  Highlight.pinned_style <> Highlight.high_performer_style /\
  Highlight.pinned_style <> Highlight.no_style /\
  Highlight.top_three_style <> Highlight.high_performer_style /\
  Highlight.top_three_style <> Highlight.no_style /\
  Highlight.high_performer_style <> Highlight.no_style.
Proof. repeat split; intros H; discriminate H. Qed.

Lemma repeat_style_inj (a b : string) :
  repeat a Highlight.row_len = repeat b Highlight.row_len -> a = b.
Proof. intros H. now injection H. Qed.

Ltac same_style := split; [intros _ | intros _; reflexivity].

Ltac other_style :=
  split;
  [ let Hs := fresh "Hs" in
    intros Hs; apply repeat_style_inj in Hs; congruence
  | intros Hp; exfalso ].

(** X21.  Every row gets exactly one of the four styles, on all nine cells:
    the pinned style exactly when a player is pinned and the row is that
    player; otherwise the top-three style exactly when Final Standing is below
    4; otherwise the high-performer style exactly when Win Rate is at least
    0.8; otherwise no style. *)
Theorem highlight_row_characterised pin_choice row :
  let pinned := pin_choice <> "None"%string
                /\ ViewBuilder.player_is pin_choice row = true in
  let style s :=
    Highlight.highlight_row pin_choice row = repeat s Highlight.row_len in
  (style Highlight.pinned_style <-> pinned) /\
  (style Highlight.top_three_style
   <-> ~ pinned /\ Final_Standing row < 4) /\
  (style Highlight.high_performer_style
   <-> ~ pinned /\ 4 <= Final_Standing row /\ 8 # 10 <= Win_Rate row) /\
  (style Highlight.no_style
   <-> ~ pinned /\ 4 <= Final_Standing row /\ Win_Rate row < 8 # 10).
Proof.
  intros pinned style. subst pinned style. cbv beta.
  destruct styles_differ as (D1 & D2 & D3 & D4 & D5 & D6).
  unfold Highlight.highlight_row.
  rewrite <- pinned_guard_iff.
  destruct (negb (String.eqb pin_choice "None")
            && ViewBuilder.player_is pin_choice row)%bool.
  - split; [same_style; reflexivity |].
    split; [other_style; destruct Hp as [Hp _]; now apply Hp |].
    split; [other_style; destruct Hp as [Hp _]; now apply Hp |].
    other_style; destruct Hp as [Hp _]; now apply Hp.
  - destruct (py_int (Final_Standing row) <=? 3)%Z eqn:E2.
    + apply Z.leb_le, py_int_at_most_3 in E2.
      split; [other_style; discriminate Hp |].
      split; [same_style; split; [discriminate | exact E2] |].
      split; [other_style; destruct Hp as (_ & H & _); lra |].
      other_style; destruct Hp as (_ & H & _); lra.
    + apply Z.leb_gt in E2.
      assert (H4 : 4 <= Final_Standing row).
      { apply Qnot_lt_le. intros H. apply py_int_at_most_3 in H. lia. }
      destruct (Qle_bool (8 # 10) (Win_Rate row)) eqn:E3.
      * apply Qle_bool_iff in E3.
        split; [other_style; discriminate Hp |].
        split; [other_style; destruct Hp as (_ & H); lra |].
        split;
          [same_style; repeat split; [discriminate | exact H4 | exact E3] |].
        other_style; destruct Hp as (_ & _ & H); lra.
      * apply Qle_bool_false in E3.
        split; [other_style; discriminate Hp |].
        split; [other_style; destruct Hp as (_ & H); lra |].
        split; [other_style; destruct Hp as (_ & _ & H); lra |].
        same_style; repeat split; [discriminate | exact H4 | exact E3].
Qed.

(** ** Rescaling and the average, end to end *)

Lemma rescale_row_idempotent r :
  (forall q, win_rate r = Some q -> q <= 100) ->
  RowWise.rescale_row (RowWise.rescale_row r) = RowWise.rescale_row r.
Proof.
  destruct r as [pl fs [wr|] w l g mu m pr]; cbn [win_rate]; intros H;
    [| reflexivity].
  specialize (H wr eq_refl).
  cbv [RowWise.rescale_row win_rate cell_gt cell_div_scalar set_win_rate
       player final_standing wins losses games mu_rating model prompt].
  destruct (Qgt_bool wr 1) eqn:E; cbv [win_rate cell_gt]; [| now rewrite E].
  replace (Qgt_bool (wr / 100) 1) with false; [reflexivity |].
  symmetry. apply Qgt_bool_false.
  apply Qle_shift_div_r; [reflexivity | lra].
Qed.

(** X22.  For win rates of at most 100 the rescaling of line 48 needs one
    pass: applied to its own result it changes nothing. *)
Theorem rescale_once_is_enough df :
  (forall r q, In r df -> win_rate r = Some q -> q <= 100) ->
  Normalizer.rescale_win_rate (Normalizer.rescale_win_rate df)
  = Normalizer.rescale_win_rate df.
Proof.
  intros H. rewrite !RowWiseFacts.rescale_win_rate_rowwise, map_map.
  apply map_ext_in. intros r Hr. apply rescale_row_idempotent.
  intros q. now apply H.
Qed.

Lemma rescale_once_is_enough_witness :
  let df := [stats_row None None (Some 25) (Some 92)] in
  Normalizer.rescale_win_rate (Normalizer.rescale_win_rate df)
  = Normalizer.rescale_win_rate df.
Proof.
  intros df. apply (rescale_once_is_enough df).
  intros r q [<- | []] Hq. injection Hq as <-. discriminate.
Defined.

Lemma wins_within_estimated_games w l :
  Quality.is_count w = true -> Quality.is_count l = true ->
  w <= inject_Z (Qfloor (w + l)).
Proof.
  intros Hw Hl.
  assert (Hsum : inject_Z (Qfloor (w + l)) == w + l).
  { apply is_integer_floor, is_integer_plus.
    - unfold Quality.is_count in Hw. now apply andb_prop in Hw.
    - unfold Quality.is_count in Hl. now apply andb_prop in Hl. }
  apply is_count_nonneg in Hl. rewrite Hsum. lra.
Qed.

Lemma infer_row_wins_within_games r :
  Quality.admissible 1 r = true -> Quality.has_total r = true ->
  let r' := RowWise.infer_row r in
  0 <= ViewBuilder.value (wins r') /\
  ViewBuilder.value (wins r') <= ViewBuilder.value (games r').
Proof.
  destruct r as [p fs [wr|] [w|] [l|] [g|] mu m pr];
    cbv [Quality.has_total wins games losses cell_isna cell_notna negb orb];
    intros H Ht; try discriminate Ht; clear Ht; revert H;
    destruct fs; eval_row; intros H; split_bools;
    case_guards; eval_row; cbv [ViewBuilder.value];
    rewrite ?Qfloor_Z.
  all: repeat match goal with
         | H : Quality.is_count _ = true |- _ =>
             pose proof (is_count_nonneg _ H); revert H
         | H : Qle_bool _ _ = true |- _ => apply Qle_bool_iff in H
         end; intros.
  all: try (split; lra).
  all: try (split; [assumption | now apply wins_within_estimated_games]).
  all: match goal with
       | Hg : Quality.is_count ?g = true,
         Hwr : Quality.in_range 0 1 ?wr = true
         |- context [round_half_even (?g * ?wr)] =>
           destruct (estimated_wins_range g wr Hg Hwr) as [Hr0 Hrg];
           split; [now rewrite Zle_Qle in Hr0 | exact Hrg]
       end.
Qed.

(** X23.  End to end: when every uploaded row is plausible and has its wins
    missing or accompanied by games or by losses, the average win rate that
    the run shows lies between 0 and 1, whatever the sort key and the pin
    selection.  (Wins uploaded without games and losses meet zero-filled
    games, and the average can then exceed 1.) *)
Theorem shown_average_in_unit_interval argsort raw o pin_choice view m :
  Argsort.sorts argsort ->
  dashboard argsort raw o pin_choice = Some (view, m) ->
  (forall r, In r raw ->
             Quality.plausible (Normalizer.coerce_row r) = true /\
             Quality.has_total (Normalizer.coerce_row r) = true) ->
  0 <= Summary.average_win_rate m /\ Summary.average_win_rate m <= 1.
Proof.
  intros Hsorts Hrun Hraw. unfold dashboard in Hrun.
  destruct (clean raw) as [df |] eqn:Hclean; [| discriminate Hrun].
  cbn [bind] in Hrun. injection Hrun as <- <-.
  cbn [Summary.summary Summary.average_win_rate]. unfold Summary.avg_wr.
  assert (Hrows : forall v,
             In v (ViewBuilder.build argsort o pin_choice df) ->
             0 <= Wins v /\ Wins v <= Games v);
    [| apply guarded_ratio_bounds;
       [apply sum_map_nonneg | apply sum_map_le];
       intros v Hv; now apply Hrows].
  intros v Hv.
  apply (Permutation_in v (build_permutation argsort o pin_choice df Hsorts))
    in Hv.
  unfold ViewBuilder.rename in Hv. apply in_map_iff in Hv.
  destruct Hv as [c' [<- Hc']].
  unfold clean in Hclean. rewrite (infer_output _ _ Hclean) in Hc'.
  rewrite RowWiseFacts.normalize_rowwise, map_map in Hc'.
  apply in_map_iff in Hc'. destruct Hc' as [r [<- Hr]].
  destruct (Hraw r Hr) as [Hok Htot].
  cbn [ViewBuilder.rename_row Wins Games].
  apply infer_row_wins_within_games.
  - now apply rescale_row_admissible.
  - revert Htot. destruct (Normalizer.coerce_row r) as [? ? [wr|] ? ? ? ? ? ?];
      cbv [RowWise.rescale_row Quality.has_total win_rate cell_gt
           cell_div_scalar set_win_rate wins games losses];
      [destruct (Qgt_bool wr 1) |]; trivial.
Qed.

Lemma shown_average_in_unit_interval_witness :
  let raw := [raw_stats_row None None (Some 25) (Some 92);
              raw_stats_row (Some 21) (Some 6) None None] in
  let view := ViewBuilder.build Argsort.stable_argsort ViewBuilder.ByWins
                                "None"
                                (map RowWise.infer_row
                                     (Normalizer.normalize raw)) in
  0 <= Summary.average_win_rate (Summary.summary view) /\
  Summary.average_win_rate (Summary.summary view) <= 1.
Proof.
  intros raw view.
  apply (shown_average_in_unit_interval Argsort.stable_argsort raw
           ViewBuilder.ByWins "None" view (Summary.summary view)).
  - exact stable_argsort_sorts.
  - vm_compute. reflexivity.
  - intros r [<- | [<- | []]]; split; vm_compute; reflexivity.
Defined.

(** Wins uploaded without games and losses: the second row below has wins 5
    and zero-filled games, and the average is 6 / 1. *)
Lemma average_can_exceed_one :
  exists view m,
    dashboard Argsort.stable_argsort
              [raw_stats_row (Some 1) (Some 0) (Some 1) None;
               raw_stats_row (Some 5) None None None]
              ViewBuilder.ByWins "None" = Some (view, m) /\
    1 < Summary.average_win_rate m.
Proof.
  eexists. eexists. split; vm_compute; reflexivity.
Qed.
